(** * NAT traversal maintenance: gateway port mapping and connection sharing

    A shallow embedding of two Go files of the node,

      - [nat/mapping/port_mapping.go] (package [mapping]): the gateway port
        mapper, its maintenance loop and the activation policy;
      - [nat/service_ics.go] (package [nat]): the internet connection sharing
        service of the Windows build.

    Go values are modelled as follows.  An [error] is the text its [Error()]
    method returns, and a Go value of type [error] is an [option error] whose
    [None] is [nil].  An [int] is a [Z] (no arithmetic is done on ports), a
    [time.Duration] is a [Z] counting nanoseconds, a [map[string]T] is a
    [gmap string T].  Calls that leave the process (the gateway, the metrics
    sender, PowerShell) are transitions of an abstract state machine supplied
    by the environment, and every such call is recorded, in program order, in
    the list of events a run emits. *)

From stdpp Require Import base option list strings gmap pretty.
From Stdlib Require Import ZArith Lia Ascii.

Local Open Scope Z_scope.

(** ** Errors *)

Definition error : Type := string.

(** [errors.New] of github.com/pkg/errors. *)
Definition errors_New (msg : string) : option error := Some msg.

(** [errors.Wrap]: [nil] stays [nil], otherwise the message is put in front. *)
Definition errors_Wrap (err : option error) (msg : string) : option error :=
  match err with
  | None => None
  | Some e => Some (msg +:+ ": " +:+ e)
  end.

(** The [%d] and [%v] verbs of package fmt on an [int]. *)
Definition fmt_d (n : Z) : string := pretty n.

(** The [%v] verb on an [error]. *)
Definition fmt_v (err : option error) : string := default "<nil>" err.

(** The first non-nil error of a list of outcomes, [nil] when there is none. *)
Fixpoint first_error (errs : list (option error)) : option error :=
  match errs with
  | [] => None
  | Some e :: _ => Some e
  | None :: rest => first_error rest
  end.

(** ** Running code against its collaborators

    A computation reads and updates a state [St] (the service's own fields and
    the state of the outside world it talks to) and emits events of type
    [Ev]. *)

Definition prog (St Ev A : Type) : Type := St → A * St * list Ev.

Definition ret {St Ev A : Type} (a : A) : prog St Ev A := λ s, (a, s, []).

Definition bind {St Ev A B : Type} (c : prog St Ev A) (k : A → prog St Ev B)
  : prog St Ev B :=
  λ s, let '(a, s1, t1) := c s in
       let '(b, s2, t2) := k a s1 in
       (b, s2, t1 ++ t2).

#[global] Instance prog_ret {St Ev : Type} : MRet (prog St Ev) := @ret St Ev.
#[global] Instance prog_bind {St Ev : Type} : MBind (prog St Ev) :=
  λ A B k c, bind c k.

Definition emit {St Ev : Type} (e : Ev) : prog St Ev unit := λ s, (tt, s, [e]).

(** Lays a computation open as a function of the state. *)
Ltac prog_unfold := unfold mbind, prog_bind, bind, emit, mret, prog_ret, ret.

(** ** Package mapping *)

Module Mapping.

Definition logPrefix : string := "[port mapping] ".

(** [time.Minute], in nanoseconds. *)
Definition Minute : Z := 60 * 1000000000.

Definition mapTimeout : Z := 20 * Minute.
Definition mapUpdateInterval : Z := 15 * Minute.

(** The two methods of [portmap.Interface] the mapper calls.  A gateway is a
    state machine: a call returns the gateway's next state and its answer. *)
Class Interface (G : Type) := {
  AddMapping : G → string → Z → Z → string → Z → G * option error;
  DeleteMapping : G → string → Z → Z → G * option error
}.

Class metricsSender (M : Type) := {
  SendNATMappingSuccessEvent : M → M * option error;
  SendNATMappingFailEvent : M → error → M * option error
}.

(** The seelog levels the package logs at. *)
Inductive level := LDebug | LInfo.

(** Which case of the loop's [select] was taken. *)
Inductive select_case :=
| CaseQuit                      (* case <-c *)
| CaseTimer (d : Z).            (* case <-time.After(d) *)

Inductive event :=
| EvAddMapping (protocol : string) (extPort intPort : Z) (name : string)
    (lease : Z) (err : option error)
| EvDeleteMapping (protocol : string) (extPort intPort : Z) (err : option error)
| EvSuccessEvent (answer : option error)
| EvFailEvent (cause : error) (answer : option error)
| EvLog (lvl : level) (msg : string)
| EvSelect (c : select_case).

(** Whether a run of [mapPort] has returned within the steps it was given. *)
Inductive progress := Returned | StillRunning.

Section mapper.
Context {G M : Type} `{!Interface G} `{!metricsSender M}.

Record state := State { gateway : G; sender : M }.

Local Abbreviation prog := (prog state event).

Definition log (lvl : level) (msg : string) : prog unit := emit (EvLog lvl msg).

(** [m.AddMapping(protocol, extPort, intPort, name, lease)] *)
Definition m_AddMapping (protocol : string) (extPort intPort : Z)
    (name : string) (lease : Z) : prog (option error) :=
  λ s, let '(g, err) := AddMapping (gateway s) protocol extPort intPort name lease in
       (err, State g (sender s),
        [EvAddMapping protocol extPort intPort name lease err]).

(** [m.DeleteMapping(protocol, extPort, intPort)] *)
Definition m_DeleteMapping (protocol : string) (extPort intPort : Z)
  : prog (option error) :=
  λ s, let '(g, err) := DeleteMapping (gateway s) protocol extPort intPort in
       (err, State g (sender s), [EvDeleteMapping protocol extPort intPort err]).

(** The sender's answer is dropped by the caller, as in the source. *)
Definition sendSuccess : prog unit :=
  λ s, let '(m, r) := SendNATMappingSuccessEvent (sender s) in
       (tt, State (gateway s) m, [EvSuccessEvent r]).

Definition sendFail (err : error) : prog unit :=
  λ s, let '(m, r) := SendNATMappingFailEvent (sender s) err in
       (tt, State (gateway s) m, [EvFailEvent err r]).

Definition addMapping (protocol : string) (extPort intPort : Z) (name : string)
  : prog (option error) :=
  err ← m_AddMapping protocol extPort intPort name mapTimeout;
  match err with
  | None => ret None
  | Some e =>
    log LDebug (logPrefix +:+ ", Couldn't add port mapping for port "
                +:+ fmt_d extPort +:+ ": " +:+ e
                +:+ ", retrying with permanent lease") ;;
    (* some gateways support only permanent leases *)
    err ← m_AddMapping protocol extPort intPort name 0;
    match err with
    | None => ret None
    | Some e =>
      ret (Some ("couldn't add port mapping for port " +:+ fmt_d extPort
                 +:+ ": " +:+ e))
    end
  end.

(** The body of the [for] loop of [mapPort] up to its [select]. *)
Definition iteration (protocol : string) (extPort intPort : Z) (name : string)
  : prog unit :=
  err ← addMapping protocol extPort intPort name;
  match err with
  | Some e =>
    log LInfo (logPrefix +:+ ", Mapping for port " +:+ fmt_d extPort
               +:+ " failed: " +:+ e) ;;
    sendFail e
  | None =>
    (* log.Info, not log.Infof: the operands are printed one after another *)
    log LInfo ("%s, Mapped network port: %d" +:+ logPrefix +:+ fmt_d extPort) ;;
    sendSuccess
  end.

(** The [for] loop.  [quit i] tells whether the [select] of iteration [i]
    (counted from 0) takes the case [<-c]; otherwise the timer case is taken
    after [mapUpdateInterval].  [fuel] bounds the iterations run. *)
Fixpoint mapPort_loop (fuel : nat) (quit : nat → bool) (i : nat)
    (protocol : string) (extPort intPort : Z) (name : string) : prog progress :=
  match fuel with
  | O => ret StillRunning
  | S fuel' =>
    iteration protocol extPort intPort name ;;
    if quit i then
      emit (EvSelect CaseQuit) ;;
      ret Returned
    else
      emit (EvSelect (CaseTimer mapUpdateInterval)) ;;
      mapPort_loop fuel' quit (S i) protocol extPort intPort name
  end.

(** The deferred function of [mapPort]. *)
Definition mapPort_deferred (protocol : string) (extPort intPort : Z) : prog unit :=
  log LDebug (logPrefix +:+ "Deleting port mapping for port: " +:+ fmt_d extPort) ;;
  err ← m_DeleteMapping protocol extPort intPort;
  match err with
  | Some e => log LDebug (logPrefix +:+ "Couldn't delete port mapping: " +:+ e)
  | None => ret tt
  end.

(** [mapPort]: the loop, and the deferred deletion once the loop returns. *)
Definition mapPort (fuel : nat) (quit : nat → bool)
    (protocol : string) (extPort intPort : Z) (name : string) : prog progress :=
  r ← mapPort_loop fuel quit 0 protocol extPort intPort name;
  match r with
  | Returned => mapPort_deferred protocol extPort intPort ;; ret Returned
  | StillRunning => ret StillRunning
  end.

(** *** Channels, goroutines and the functions the package exports

    The part of the Go runtime the package touches: the channels made so far
    (a [chan] is its index in the table) and the goroutines started so far,
    each with the arguments [mapPort] was started with. *)

Inductive chan_state := Open | Closed.

Abbreviation chan := nat.

(** [go mapPort(portmap.Any(), c, protocol, extPort, intPort, name, metricsSender)] *)
Record goroutine := Go_mapPort {
  g_c : chan;
  g_protocol : string;
  g_extPort : Z;
  g_intPort : Z;
  g_name : string;
  g_metricsSender : M
}.

Record runtime := Runtime {
  chans : list chan_state;
  goroutines : list goroutine
}.

(** How a call ends for its caller. *)
Inductive outcome (A : Type) :=
| Returns (a : A)
| Panics (msg : string)
| Blocks.
#[global] Arguments Returns {A} a.
#[global] Arguments Panics {A} msg.
#[global] Arguments Blocks {A}.

(** [make(chan struct{})] *)
Definition make_chan (rt : runtime) : chan * runtime :=
  (length (chans rt), Runtime (chans rt ++ [Open]) (goroutines rt)).

(** The [go] statement. *)
Definition go (g : goroutine) (rt : runtime) : runtime :=
  Runtime (chans rt) (goroutines rt ++ [g]).

(** [close(c)]: closing never waits for a receiver; closing a closed (or nil)
    channel panics. *)
Definition close (c : chan) (rt : runtime) : outcome runtime :=
  match chans rt !! c with
  | Some Open => Returns (Runtime (<[c := Closed]> (chans rt)) (goroutines rt))
  | Some Closed => Panics "close of closed channel"
  | None => Panics "close of nil channel"
  end.

(** The two function values the package returns. *)
Inductive func :=
| func_close (mapperQuit : chan)     (* func() { close(mapperQuit) } *)
| func_empty.                        (* func() {} *)

Definition call (f : func) (rt : runtime) : outcome runtime :=
  match f with
  | func_close mapperQuit => close mapperQuit rt
  | func_empty => Returns rt
  end.

Definition PortMapping (protocol : string) (port : Z) (name : string)
    (ms : M) (rt : runtime) : func * runtime :=
  let '(mapperQuit, rt) := make_chan rt in
  let rt := go (Go_mapPort mapperQuit protocol port port name ms) rt in
  (func_close mapperQuit, rt).

Definition GetPortMappingFunc (pubIP outIP protocol : string) (port : Z)
    (description : string) (ms : M) (rt : runtime) : func * runtime :=
  if negb (String.eqb pubIP outIP) then
    PortMapping protocol port description ms rt
  else (func_empty, rt).

(** What a started goroutine runs, on the gateway [portmap.Any()] gave it. *)
Definition run_goroutine (g : goroutine) (any : G) (fuel : nat) (quit : nat → bool)
  : progress * state * list event :=
  mapPort fuel quit (g_protocol g) (g_extPort g) (g_intPort g) (g_name g)
    (State any (g_metricsSender g)).

(** *** Reading a run's events *)

Definition is_add (e : event) : bool :=
  match e with EvAddMapping _ _ _ _ _ _ => true | _ => false end.

Definition is_delete (e : event) : bool :=
  match e with EvDeleteMapping _ _ _ _ => true | _ => false end.

Definition is_select (e : event) : bool :=
  match e with EvSelect _ => true | _ => false end.

Definition is_quit (e : event) : bool :=
  match e with EvSelect CaseQuit => true | _ => false end.

Definition is_notify (e : event) : bool :=
  match e with EvSuccessEvent _ | EvFailEvent _ _ => true | _ => false end.

Definition count (p : event → bool) (t : list event) : nat :=
  length (List.filter p t).

(** The leases asked of the gateway and its answers, in call order. *)
Definition add_calls (t : list event) : list (Z * option error) :=
  omap (λ e, match e with
             | EvAddMapping _ _ _ _ lease err => Some (lease, err)
             | _ => None
             end) t.

(** The ports a gateway call was made with. *)
Definition gateway_ports (e : event) : option (Z * Z) :=
  match e with
  | EvAddMapping _ extPort intPort _ _ _ => Some (extPort, intPort)
  | EvDeleteMapping _ extPort intPort _ => Some (extPort, intPort)
  | _ => None
  end.

(** An event with the metrics sender's answer blanked. *)
Definition forget_sender_answer (e : event) : event :=
  match e with
  | EvSuccessEvent _ => EvSuccessEvent None
  | EvFailEvent cause _ => EvFailEvent cause None
  | _ => e
  end.

(** The events of the deferred function when the gateway answers [err]. *)
Definition deferred_events (protocol : string) (extPort intPort : Z)
    (err : option error) : list event :=
  [EvLog LDebug (logPrefix +:+ "Deleting port mapping for port: " +:+ fmt_d extPort);
   EvDeleteMapping protocol extPort intPort err]
  ++ match err with
     | Some e => [EvLog LDebug (logPrefix +:+ "Couldn't delete port mapping: " +:+ e)]
     | None => []
     end.

(** The events of [addMapping]: gateway calls with the arguments given, and
    a log line. *)
Definition add_event_of protocol extPort intPort name (e : event) : Prop :=
  match e with
  | EvAddMapping protocol' extPort' intPort' name' _ _ =>
    protocol' = protocol ∧ extPort' = extPort ∧ intPort' = intPort ∧ name' = name
  | EvLog _ _ => True
  | _ => False
  end.

(** An [AddMapping] call that asks for the timed lease. *)
Definition is_timed_add (e : event) : bool :=
  match e with
  | EvAddMapping _ _ _ _ lease _ => lease =? mapTimeout
  | _ => false
  end.

(** A [select] that took the timer case. *)
Definition is_timer (e : event) : bool :=
  match e with EvSelect (CaseTimer _) => true | _ => false end.

(** A gateway call made for the mapping [protocol], [name]: an [AddMapping]
    asks for the timed or for the permanent lease. *)
Definition gateway_call_of (protocol name : string) (e : event) : Prop :=
  match e with
  | EvAddMapping protocol' _ _ name' lease _ =>
    protocol' = protocol ∧ name' = name ∧ (lease = mapTimeout ∨ lease = 0)
  | EvDeleteMapping protocol' _ _ _ => protocol' = protocol
  | _ => True
  end.

(** A [select] takes the quit case or waits the refresh interval. *)
Definition select_of_loop (e : event) : Prop :=
  match e with
  | EvSelect c => c = CaseQuit ∨ c = CaseTimer mapUpdateInterval
  | _ => True
  end.

End mapper.

#[global] Arguments state : clear implicits.
#[global] Arguments goroutine : clear implicits.
#[global] Arguments runtime : clear implicits.

(** Two runs against the same gateway with different metrics senders. *)
Definition same_run {G M1 M2 A : Type}
    (x : A * state G M1 * list event) (y : A * state G M2 * list event) : Prop :=
  x.1.1 = y.1.1 ∧ gateway x.1.2 = gateway y.1.2 ∧
  forget_sender_answer <$> x.2 = forget_sender_answer <$> y.2.

End Mapping.

(** ** Package nat: the connection sharing service *)

Module ServiceICS.

Definition enablePublicSharing : string := "$config.EnableSharing(0)".
Definition enablePrivateSharing : string := "$config.EnableSharing(1)".
Definition disableSharing : string := "$config.DisableSharing()".

(** What a call of the Go standard library gives back: a value or an error. *)
Inductive result (A : Type) :=
| Ok (a : A)
| Err (e : error).
#[global] Arguments Ok {A} a.
#[global] Arguments Err {A} e.

(** Characters of the script that a string literal cannot hold. *)
Definition LF : string := String (ascii_of_nat 10) EmptyString.
Definition TAB : string := String (ascii_of_nat 9) EmptyString.
Definition DQUOTE : string := String (ascii_of_nat 34) EmptyString.

(** The fields of the service that the mutex [mu] is declared next to. *)
Inductive field := f_ifaces | f_remoteAccessStatus.

Inductive access := Read | Write.

(** What the service takes from outside this file: declarations of package
    nat that live in other files of the package ([RuleForwarding] and its
    field [SourceAddress], [natLogPrefix]); the parts of packages net,
    strconv and strings it calls, where a [net.IP] that is [nil] is [None];
    and the function stored in the service's field
    [powerShell func(cmd string) ([]byte, error)], which changes the state
    [W] of the operating system and answers with its output and an error. *)
Class Platform (RuleForwarding IP IPNet W : Type) := {
  SourceAddress : RuleForwarding → string;
  natLogPrefix : string;
  ParseCIDR : string → result IPNet;
  Contains : IPNet → option IP → bool;
  Atoi : string → result Z;
  TrimSpace : string → string;
  shell : W → string → W * (string * option error)
}.

(** The package's function [powerShell], the one a service is built with:
    [run] stands for [exec.Command("powershell", "-Command", cmd)
    .CombinedOutput()], and its error comes back wrapped in its output. *)
Definition powerShell_exec {W : Type}
    (run : W → string → W * (string * option error))
  : W → string → W * (string * option error) :=
  λ w cmd, let '(w', (out, err)) := run w cmd in (w', (out, errors_Wrap err out)).

Section service.
Context {RuleForwarding IP IPNet W : Type} `{!Platform RuleForwarding IP IPNet W}.

(** An element of [[]net.Addr]. *)
Inductive Addr :=
| Addr_IPNet (ip : option IP)       (* *net.IPNet, its field IP *)
| Addr_IPAddr (ip : option IP)      (* *net.IPAddr, its field IP *)
| Addr_other.

(** A [net.Interface] with what its method [Addrs()] returns. *)
Record Interface := {
  Index : Z;
  Name : string;
  Addrs : result (list Addr)
}.

(** What [net.Interfaces()] returns while an operation of the service runs. *)
Definition Host : Type := result (list Interface).

(** The fields of [serviceICS] that hold data.  The map is the one the
    service was built with; it is never [nil]. *)
Record serviceICS := ICS {
  ifaces : gmap string RuleForwarding;
  remoteAccessStatus : string
}.

Record state := State { svc : serviceICS; os : W }.

(** Calls of the service's methods are recorded when they return, with their
    arguments and their result. *)
Inductive event :=
| EvPowerShell (cmd out : string) (err : option error)
| EvLock
| EvUnlock
| EvAccess (f : field) (a : access)
| EvDel (rule : RuleForwarding) (err : option error)
| EvApplySharingConfig (action ifaceName : string) (err : option error)
| EvGetPublicInterfaceName (ifaceName : string) (err : option error)
| EvLog (msg : string).

Local Abbreviation prog := (prog state event).

Definition log (msg : string) : prog unit := emit (EvLog msg).

(** [nat.powerShell(cmd)] *)
Definition powerShell (cmd : string) : prog (string * option error) :=
  λ s, let '(w, (out, err)) := shell (os s) cmd in
       ((out, err), State (svc s) w, [EvPowerShell cmd out err]).

(** [nat.mu.Lock()] and [nat.mu.Unlock()] *)
Definition Lock : prog unit := emit EvLock.
Definition Unlock : prog unit := emit EvUnlock.

(** [nat.ifaces], read *)
Definition load_ifaces : prog (gmap string RuleForwarding) :=
  λ s, (ifaces (svc s), s, [EvAccess f_ifaces Read]).

(** [nat.ifaces[ifaceName] = rule] *)
Definition store_iface (ifaceName : string) (rule : RuleForwarding) : prog unit :=
  λ s, (tt,
        State (ICS (<[ifaceName := rule]> (ifaces (svc s)))
                   (remoteAccessStatus (svc s))) (os s),
        [EvAccess f_ifaces Write]).

(** [delete(nat.ifaces, ifaceName)] *)
Definition delete_iface (ifaceName : string) : prog unit :=
  λ s, (tt,
        State (ICS (delete ifaceName (ifaces (svc s)))
                   (remoteAccessStatus (svc s))) (os s),
        [EvAccess f_ifaces Write]).

(** [nat.remoteAccessStatus], read *)
Definition load_remoteAccessStatus : prog string :=
  λ s, (remoteAccessStatus (svc s), s, [EvAccess f_remoteAccessStatus Read]).

(** [nat.remoteAccessStatus = status] *)
Definition store_remoteAccessStatus (status : string) : prog unit :=
  λ s, (tt, State (ICS (ifaces (svc s)) status) (os s),
        [EvAccess f_remoteAccessStatus Write]).

Definition enableRemoteAccessService : prog (option error) :=
  '(status, err) ← powerShell "Get-Service RemoteAccess | foreach { $_.StartType }";
  match err with
  | Some _ => mret (errors_Wrap err "failed to get RemoteAccess service startup type")
  | None =>
    store_remoteAccessStatus status ;;
    '(_, err) ← powerShell "Set-Service -Name RemoteAccess -StartupType automatic";
    match err with
    | Some _ =>
      mret (errors_Wrap err
              "failed to set RemoteAccess service startup type to automatic")
    | None =>
      '(_, err) ← powerShell "Start-Service -Name RemoteAccess";
      mret (errors_Wrap err "failed to start RemoteAccess service")
    end
  end.

(** The loop of [getPublicInterfaceName] over the interfaces. *)
Fixpoint interface_by_index (ifaceID : Z) (l : list Interface)
  : string * option error :=
  match l with
  | [] => (EmptyString, errors_New "interface not found")
  | iface :: l' =>
    if Index iface =? ifaceID then (Name iface, None)
    else interface_by_index ifaceID l'
  end.

(** The command [getPublicInterfaceName] asks the default route with. *)
Definition default_route_query : string :=
  "Get-WmiObject -Class Win32_IP4RouteTable | where { $_.destination -eq '0.0.0.0' -and $_.mask -eq '0.0.0.0'} | foreach { $_.InterfaceIndex }".

Definition getPublicInterfaceName (host : Host) : prog (string * option error) :=
  r ← ('(out, err) ← powerShell default_route_query;
       match err with
       | Some _ =>
         mret (EmptyString,
               errors_Wrap err "failed to get interface from the default route")
       | None =>
         match Atoi (TrimSpace out) with
         | Err e =>
           mret (EmptyString, errors_Wrap (Some e) "failed to parse interface ID")
         | Ok ifaceID =>
           match host with
           | Err e =>
             mret (EmptyString,
                   errors_Wrap (Some e) "failed to get a list of network interfaces")
           | Ok l => mret (interface_by_index ifaceID l)
           end
         end
       end);
  emit (EvGetPublicInterfaceName r.1 r.2) ;;
  mret r.

(** The script [applySharingConfig] hands to PowerShell. *)
Definition sharing_script (action ifaceName : string) : string :=
  "regsvr32 /s hnetcfg.dll;" +:+ LF +:+ TAB +:+ TAB
  +:+ "$netShare = New-Object -ComObject HNetCfg.HNetShare;" +:+ LF +:+ TAB +:+ TAB
  +:+ "$c = $netShare.EnumEveryConnection |? { $netShare.NetConnectionProps.Invoke($_).Name -eq "
  +:+ DQUOTE +:+ ifaceName +:+ DQUOTE +:+ " };" +:+ LF +:+ TAB +:+ TAB
  +:+ "$config = $netShare.INetSharingConfigurationForINetConnection.Invoke($c);"
  +:+ action.

Definition applySharingConfig (action ifaceName : string) : prog (option error) :=
  err ← (if (String.length action =? 0)%nat then
           mret (errors_New "empty action provided")
         else if (String.length ifaceName =? 0)%nat then
           mret (errors_New "empty interface name provided")
         else
           '(_, err) ← powerShell (sharing_script action ifaceName);
           mret err);
  emit (EvApplySharingConfig action ifaceName err) ;;
  mret err.

(** The type switch of [contains]: the address as a [net.IP], [nil] for an
    address of another type. *)
Definition addr_ip (addr : Addr) : option IP :=
  match addr with
  | Addr_IPNet ip => ip
  | Addr_IPAddr ip => ip
  | Addr_other => None
  end.

Fixpoint contains (ipnet : IPNet) (addrs : list Addr) : bool :=
  match addrs with
  | [] => false
  | addr :: addrs' =>
    if Contains ipnet (addr_ip addr) then true else contains ipnet addrs'
  end.

(** The loop of [getInterfaceBySubnet] over the interfaces. *)
Fixpoint interface_by_subnet (ipnet : IPNet) (l : list Interface)
  : string * option error :=
  match l with
  | [] => (EmptyString, errors_New "interface not found")
  | iface :: l' =>
    match Addrs iface with
    | Err e =>
      (EmptyString, errors_Wrap (Some e) "failed to get list of interface addresses")
    | Ok addrs =>
      if contains ipnet addrs then (Name iface, None)
      else interface_by_subnet ipnet l'
    end
  end.

Definition getInterfaceBySubnet (host : Host) (subnet : string)
  : string * option error :=
  match ParseCIDR subnet with
  | Err e => (EmptyString, errors_Wrap (Some e) "failed to parse subnet from request")
  | Ok ipnet =>
    match host with
    | Err e =>
      (EmptyString, errors_Wrap (Some e) "failed to get a list of network interfaces")
    | Ok l => interface_by_subnet ipnet l
    end
  end.

(** [Add] enables internet connection sharing for the local interface. *)
Definition Add (host : Host) (rule : RuleForwarding) : prog (option error) :=
  let '(ifaceName, err) := getInterfaceBySubnet host (SourceAddress rule) in
  match err with
  | Some _ => mret (errors_Wrap err "failed to find suitable interface")
  | None =>
    err ← applySharingConfig enablePrivateSharing ifaceName;
    match err with
    | Some _ =>
      mret (errors_Wrap err
              "failed to enable internet connection sharing for internal interface")
    | None =>
      Lock ;;
      store_iface ifaceName rule ;;
      Unlock ;;                                   (* defer nat.mu.Unlock() *)
      mret None
    end
  end.

(** [Del] disables internet connection sharing for the local interface. *)
Definition Del (host : Host) (rule : RuleForwarding) : prog (option error) :=
  err ← (let '(ifaceName, err) := getInterfaceBySubnet host (SourceAddress rule) in
         match err with
         | Some _ => mret (errors_Wrap err "failed to find suitable interface")
         | None =>
           err ← applySharingConfig disableSharing ifaceName;
           match err with
           | Some _ =>
             mret (errors_Wrap err
                     "failed to disable internet connection sharing for internal interface")
           | None =>
             Lock ;;
             delete_iface ifaceName ;;
             Unlock ;;                            (* defer nat.mu.Unlock() *)
             mret None
           end
         end);
  emit (EvDel rule err) ;;
  mret err.

(** [if resErr == nil { resErr = err }] *)
Definition keep_first (resErr err : option error) : option error :=
  match resErr with
  | None => err
  | Some _ => resErr
  end.

(** One step of the [range] loop of [Disable]: the loop ranges over the map
    itself, so the entry of [iface] is produced, and the loop body run on
    it, only if it has not been deleted before it is reached. *)
Definition Disable_visit (host : Host) (iface : string) (resErr : option error)
  : prog (option error) :=
  m ← load_ifaces;
  match m !! iface with
  | None => mret resErr
  | Some rule =>
    err ← Del host rule;
    match err with
    | Some _ =>
      log (natLogPrefix
           +:+ " Failed to cleanup internet connection sharing for '"
           +:+ iface +:+ "' interface: " +:+ fmt_v err) ;;
      mret (keep_first resErr err)
    | None => mret resErr
    end
  end.

(** The [range] loop of [Disable].  Go leaves the order of a map's entries
    open: [order] lists the keys in the order this run reaches them. *)
Fixpoint Disable_range (host : Host) (order : list string)
    (resErr : option error) : prog (option error) :=
  match order with
  | [] => mret resErr
  | iface :: order' =>
    resErr ← Disable_visit host iface resErr;
    Disable_range host order' resErr
  end.

(** The three steps of [Disable] after the loop share this ending: the
    wrapped error is logged and kept if it is the first. *)
Definition record_failure (resErr err : option error) (msg : string)
  : prog (option error) :=
  match err with
  | Some _ =>
    let err := errors_Wrap err msg in
    log (natLogPrefix +:+ " " +:+ fmt_v err) ;;
    mret (keep_first resErr err)
  | None => mret resErr
  end.

(** [Disable] disables internet connection sharing for the public interface. *)
Definition Disable (host : Host) (order : list string) : prog (option error) :=
  resErr ← Disable_range host order None;
  status ← load_remoteAccessStatus;
  '(_, err) ← powerShell ("Set-Service -Name RemoteAccess -StartupType " +:+ status);
  resErr ← record_failure resErr err
             "failed to revert RemoteAccess service startup type";
  '(ifaceName, err) ← getPublicInterfaceName host;
  resErr ← record_failure resErr err "failed to get public interface name";
  err ← applySharingConfig disableSharing ifaceName;
  resErr ← record_failure resErr err
             "failed to disable internet connection sharing";
  mret resErr.

(** [Enable] enables internet connection sharing for the public interface. *)
Definition Enable (host : Host) : prog (option error) :=
  err ← enableRemoteAccessService;
  match err with
  | Some _ => mret (errors_Wrap err "failed to Enable RemoteAccess service")
  | None =>
    '(ifaceName, err) ← getPublicInterfaceName host;
    match err with
    | Some _ => mret (errors_Wrap err "failed to get public interface name")
    | None =>
      err ← applySharingConfig enablePublicSharing ifaceName;
      mret (errors_Wrap err "failed to enable internet connection sharing")
    end
  end.

(** *** Reading a run's events *)

(** The rules [Del] was called with and what it returned, in call order. *)
Definition del_records (t : list event) : list (RuleForwarding * option error) :=
  omap (λ e, match e with
             | EvDel rule err => Some (rule, err)
             | _ => None
             end) t.

Definition is_apply_of (action : string) (e : event) : bool :=
  match e with
  | EvApplySharingConfig action' _ _ => String.eqb action' action
  | _ => false
  end.

(** Whether [mu] is held after the events [t], given whether it is held when
    [t] starts. *)
Fixpoint held_after (held : bool) (t : list event) : bool :=
  match t with
  | [] => held
  | EvLock :: t' => held_after true t'
  | EvUnlock :: t' => held_after false t'
  | _ :: t' => held_after held t'
  end.

(** The accesses to the fields in [t], each with whether [mu] was held. *)
Fixpoint accesses (held : bool) (t : list event) : list (field * access * bool) :=
  match t with
  | [] => []
  | EvLock :: t' => accesses true t'
  | EvUnlock :: t' => accesses false t'
  | EvAccess f a :: t' => (f, a, held) :: accesses held t'
  | _ :: t' => accesses held t'
  end.

(** Whether every access to a field in [t] is made while [mu] is held. *)
Definition guarded (t : list event) : bool :=
  forallb (λ a, a.2) (accesses false t).

(** Whether every PowerShell command in [t] runs while [mu] is not held. *)
Fixpoint shell_unlocked (held : bool) (t : list event) : bool :=
  match t with
  | [] => true
  | EvLock :: t' => shell_unlocked true t'
  | EvUnlock :: t' => shell_unlocked false t'
  | EvPowerShell _ _ _ :: t' => negb held && shell_unlocked held t'
  | _ :: t' => shell_unlocked held t'
  end.

Definition is_shell (e : event) : bool :=
  match e with EvPowerShell _ _ _ => true | _ => false end.

(** No recorded rule resolves to an interface that is recorded under another
    name: a rule that resolves at all resolves to the interface it is
    recorded under, or to one that is not recorded. *)
Definition no_cross_resolution (host : Host)
    (m : gmap string RuleForwarding) : Prop :=
  ∀ k rule name,
    m !! k = Some rule →
    getInterfaceBySubnet host (SourceAddress rule) = (name, None) →
    name = k ∨ m !! name = None.

(** The log line of a failed step of [Disable] after the loop. *)
Definition failure_log (err : option error) : list event :=
  match err with
  | Some _ => [EvLog (natLogPrefix +:+ " " +:+ fmt_v err)]
  | None => []
  end.

(** The PowerShell commands run, in order, and the errors they returned. *)
Definition shell_commands (t : list event) : list string :=
  omap (λ e, match e with EvPowerShell cmd _ _ => Some cmd | _ => None end) t.

Definition shell_errors (t : list event) : list (option error) :=
  omap (λ e, match e with EvPowerShell _ _ err => Some err | _ => None end) t.

(** The three commands of [enableRemoteAccessService]. *)
Definition startup_type_query : string :=
  "Get-Service RemoteAccess | foreach { $_.StartType }".
Definition set_automatic : string :=
  "Set-Service -Name RemoteAccess -StartupType automatic".
Definition start_service : string := "Start-Service -Name RemoteAccess".

(** Every recorded rule resolves to the interface it is recorded under. *)
Definition recorded_under_own_name (host : Host)
    (m : gmap string RuleForwarding) : Prop :=
  ∀ k rule,
    m !! k = Some rule →
    getInterfaceBySubnet host (SourceAddress rule) = (k, None).

(** A call of one of the service's exported methods. *)
Inductive op :=
| OpEnable
| OpAdd (rule : RuleForwarding)
| OpDel (rule : RuleForwarding)
| OpDisable (order : list string).

Definition run_op (host : Host) (o : op) : prog (option error) :=
  match o with
  | OpEnable => Enable host
  | OpAdd rule => Add host rule
  | OpDel rule => Del host rule
  | OpDisable order => Disable host order
  end.

(** The state after a sequence of calls, whatever they returned. *)
Fixpoint run_ops (host : Host) (ops : list op) (s : state) : state :=
  match ops with
  | [] => s
  | o :: ops' => run_ops host ops' (run_op host o s).1.2
  end.

Definition is_Enable (o : op) : bool :=
  match o with OpEnable => true | _ => false end.

(** An interface the loop of [getInterfaceBySubnet] passes over: its
    addresses can be listed and none of them is in the subnet. *)
Definition passed_over (ipnet : IPNet) (iface : Interface) : Prop :=
  ∃ addrs, Addrs iface = Ok addrs ∧ contains ipnet addrs = false.

(** The calls of [getPublicInterfaceName]: what each returned. *)
Definition public_records (t : list event) : list (string * option error) :=
  omap (λ e, match e with
             | EvGetPublicInterfaceName ifaceName err => Some (ifaceName, err)
             | _ => None
             end) t.

(** The command by which [Disable] puts back the startup type [status]. *)
Definition restore_command (status : string) : string :=
  "Set-Service -Name RemoteAccess -StartupType " +:+ status.

End service.

#[global] Arguments Addr : clear implicits.
#[global] Arguments Interface : clear implicits.
#[global] Arguments Host : clear implicits.
#[global] Arguments serviceICS : clear implicits.
#[global] Arguments state : clear implicits.
#[global] Arguments event : clear implicits.

End ServiceICS.

(** * Concrete collaborators

    Gateways, senders and a small Windows host to run the code on. *)

Module Testbed.

(** ** For package mapping *)

(** A gateway that grants permanent leases only.  Its state counts the calls
    it has answered. *)
#[global] Instance permanent_only : Mapping.Interface nat := {
  Mapping.AddMapping g _ _ _ _ lease :=
    (S g, if lease =? 0 then None else Some "OnlyPermanentLeasesSupported");
  Mapping.DeleteMapping g _ _ _ := (S g, None)
}.

(** A gateway that is out of reach: every call fails. *)
Inductive unreachable := Unreachable.

#[global] Instance unreachable_gateway : Mapping.Interface unreachable := {
  Mapping.AddMapping g _ _ _ _ _ := (g, Some "no NAT gateway found");
  Mapping.DeleteMapping g _ _ _ := (g, Some "no NAT gateway found")
}.

(** A sender whose every call fails.  Its state counts the events sent. *)
#[global] Instance failing_sender : Mapping.metricsSender nat := {
  Mapping.SendNATMappingSuccessEvent m := (S m, Some "metrics: connection refused");
  Mapping.SendNATMappingFailEvent m _ := (S m, Some "metrics: connection refused")
}.

(** A sender that accepts every event. *)
#[global] Instance quiet_sender : Mapping.metricsSender unit := {
  Mapping.SendNATMappingSuccessEvent m := (m, None);
  Mapping.SendNATMappingFailEvent m _ := (m, None)
}.

(** The quit case is taken at the [n]-th [select], counted from 0. *)
Definition quit_at (n : nat) : nat → bool := λ i, (i =? n)%nat.

(** The quit case is never taken. *)
Definition never_quit : nat → bool := λ _, false.

(** The runtime of a process that has started nothing. *)
Definition idle : Mapping.runtime unit := Mapping.Runtime [] [].

(** ** For the connection sharing service: IPv4 and a scripted PowerShell *)

Import ServiceICS.

Definition ipv4 (a b c d : Z) : Z := ((a * 256 + b) * 256 + c) * 256 + d.

(** An IPv4 network: its first address and the length of its prefix. *)
Record IPNet := { network : Z; ones : Z }.

Definition mask (n : Z) (ip : Z) : Z := ip / 2 ^ (32 - n) * 2 ^ (32 - n).

Fixpoint split_on (sep : ascii) (s : string) : list string :=
  match s with
  | EmptyString => [EmptyString]
  | String c s' =>
    if Ascii.eqb c sep then EmptyString :: split_on sep s'
    else match split_on sep s' with
         | [] => [String c EmptyString]
         | w :: ws => String c w :: ws
         end
  end.

Fixpoint digits (s : string) (acc : Z) : option Z :=
  match s with
  | EmptyString => Some acc
  | String c s' =>
    let n := Z.of_nat (nat_of_ascii c) in
    if (48 <=? n) && (n <=? 57) then digits s' (10 * acc + (n - 48)) else None
  end.

Definition decimal (s : string) : option Z :=
  match s with
  | EmptyString => None
  | _ => digits s 0
  end.

(** [net.ParseCIDR] on dotted IPv4 notation. *)
Definition ParseCIDR_v4 (s : string) : result IPNet :=
  match split_on "/" s with
  | [addr; bits] =>
    match decimal <$> split_on "." addr, decimal bits with
    | [Some a; Some b; Some c; Some d], Some n =>
      if (a <=? 255) && (b <=? 255) && (c <=? 255) && (d <=? 255) && (n <=? 32)
      then Ok {| network := mask n (ipv4 a b c d); ones := n |}
      else Err ("invalid CIDR address: " +:+ s)
    | _, _ => Err ("invalid CIDR address: " +:+ s)
    end
  | _ => Err ("invalid CIDR address: " +:+ s)
  end.

(** The method [Contains] of [net.IPNet]; a [nil] address is in no network. *)
Definition Contains_v4 (n : IPNet) (ip : option Z) : bool :=
  match ip with
  | Some x => mask (ones n) x =? network n
  | None => false
  end.

(** [strconv.Atoi] on decimal digits with an optional sign. *)
Definition Atoi_dec (s : string) : result Z :=
  let bad := Err ("strconv.Atoi: parsing " +:+ DQUOTE +:+ s +:+ DQUOTE
                  +:+ ": invalid syntax") in
  match s with
  | String "-" s' => match decimal s' with Some n => Ok (- n) | None => bad end
  | String "+" s' => match decimal s' with Some n => Ok n | None => bad end
  | _ => match decimal s with Some n => Ok n | None => bad end
  end.

Definition is_space (c : ascii) : bool :=
  let n := nat_of_ascii c in ((n =? 32) || ((9 <=? n) && (n <=? 13)))%nat.

Fixpoint trim_left (s : string) : string :=
  match s with
  | String c s' => if is_space c then trim_left s' else s
  | EmptyString => EmptyString
  end.

(** [strings.TrimSpace] on ASCII text. *)
Definition TrimSpace_ascii (s : string) : string :=
  String.rev (trim_left (String.rev (trim_left s))).

Definition CRLF : string :=
  String (ascii_of_nat 13) (String (ascii_of_nat 10) EmptyString).

(** A scripted PowerShell process: the state lists the scripts that fail;
    the default route is on the interface with index 3 and the remote access
    service starts manually. *)
Definition scripted_process (failing : list string) (cmd : string)
  : list string * (string * option error) :=
  (failing,
   if bool_decide (cmd ∈ failing) then ("Access is denied.", Some "exit status 1")
   else if String.eqb cmd default_route_query then ("3" +:+ CRLF, None)
   else if String.eqb cmd "Get-Service RemoteAccess | foreach { $_.StartType }"
        then ("Manual", None)
   else (EmptyString, None)).

(** A forwarding rule is its source address alone. *)
#[global] Instance windows : Platform string Z IPNet (list string) := {
  SourceAddress rule := rule;
  natLogPrefix := "[nat] ";
  ParseCIDR := ParseCIDR_v4;
  Contains := Contains_v4;
  Atoi := Atoi_dec;
  TrimSpace := TrimSpace_ascii;
  shell := powerShell_exec scripted_process
}.

Definition iface (index : Z) (name : string) (a b c d : Z) : Interface Z :=
  {| Index := index; Name := name;
     Addrs := Ok [Addr_IPNet (Some (ipv4 a b c d))] |}.

(** A host with its uplink and three tunnels. *)
Definition three_tunnels : Host Z :=
  Ok [iface 3 "Ethernet" 192 168 1 10;
      iface 7 "tun0" 10 8 0 1;
      iface 8 "tun1" 10 9 0 1;
      iface 9 "tun2" 10 10 0 1].

(** The service with the three tunnels shared. *)
Definition three_shared : serviceICS string :=
  ICS (<["tun0" := "10.8.0.0/24"]>
       (<["tun1" := "10.9.0.0/24"]>
        (<["tun2" := "10.10.0.0/24"]> ∅))) "Manual".

(** The same host at three moments: with one tunnel, with a second one, and
    after the first tunnel has gone. *)
Definition host_one_tunnel : Host Z :=
  Ok [iface 3 "Ethernet" 192 168 1 10; iface 7 "tun0" 10 1 0 1].

Definition host_two_tunnels : Host Z :=
  Ok [iface 3 "Ethernet" 192 168 1 10; iface 7 "tun0" 10 1 0 1;
      iface 8 "tun1" 10 8 0 1].

Definition host_tunnel_gone : Host Z :=
  Ok [iface 3 "Ethernet" 192 168 1 10; iface 8 "tun1" 10 8 0 1].

(** A fresh service on a machine where every script succeeds. *)
Definition fresh : state string (list string) := State (ICS ∅ EmptyString) [].

(** The service after [Add] of 10.0.0.0/8 with one tunnel up and [Add] of
    10.8.0.0/16 with both up. *)
Definition two_rules : state string (list string) :=
  (Add host_two_tunnels "10.8.0.0/16"
     (Add host_one_tunnel "10.0.0.0/8" fresh).1.2).1.2.

(** The machine on which disabling sharing on tun0 is denied. *)
Definition tun0_denied : state string (list string) :=
  State three_shared [sharing_script disableSharing "tun0"].

End Testbed.

(** * Properties of package mapping *)

Module MappingFacts.
Import Mapping.

Section mapper.
Context {G M : Type} `{!Interface G} `{!metricsSender M}.
Implicit Types (s : state G M) (t : list event) (quit : nat → bool).

Lemma count_app p t1 t2 : count p (t1 ++ t2) = (count p t1 + count p t2)%nat.
Proof. unfold count. by rewrite List.filter_app, length_app. Qed.

Lemma count_nil p : count p [] = 0%nat.
Proof. reflexivity. Qed.

Lemma count_zero_Forall p t : count p t = 0%nat ↔ Forall (λ e, p e = false) t.
Proof.
  unfold count. induction t as [|e t IH]; simpl.
  - split; [constructor | done].
  - destruct (p e) eqn:Hp; simpl.
    + rewrite Forall_cons. split; [done | intros [? _]; congruence].
    + rewrite IH, Forall_cons. split; [intros ?; by split | by intros [_ ?]].
Qed.

(** [addMapping], one case per answer of the gateway. *)
Lemma addMapping_unfold protocol extPort intPort name s :
  addMapping protocol extPort intPort name s =
  let '(g1, err1) := AddMapping (gateway s) protocol extPort intPort name mapTimeout in
  match err1 with
  | None =>
    (None, State g1 (sender s),
     [EvAddMapping protocol extPort intPort name mapTimeout None])
  | Some e1 =>
    let '(g2, err2) := AddMapping g1 protocol extPort intPort name 0 in
    (match err2 with
     | None => None
     | Some e2 => Some ("couldn't add port mapping for port " +:+ fmt_d extPort
                        +:+ ": " +:+ e2)
     end,
     State g2 (sender s),
     [EvAddMapping protocol extPort intPort name mapTimeout (Some e1);
      EvLog LDebug (logPrefix +:+ ", Couldn't add port mapping for port "
                    +:+ fmt_d extPort +:+ ": " +:+ e1
                    +:+ ", retrying with permanent lease");
      EvAddMapping protocol extPort intPort name 0 err2])
  end.
Proof.
  unfold addMapping, m_AddMapping, log. prog_unfold. simpl.
  destruct (AddMapping (gateway s) _ _ _ _ mapTimeout) as [g1 [e1|]]; simpl; [|done].
  destruct (AddMapping g1 _ _ _ _ 0) as [g2 [e2|]]; done.
Qed.

(** C1.  For every gateway and all arguments, [addMapping] first asks for the
    timed lease of 20 minutes; it asks a second time, with lease 0, exactly
    when the first call returned an error; it returns [nil] when either call
    succeeds, and the second call's error with the port put in front only
    when both calls fail. *)
Theorem addMapping_timed_then_permanent protocol extPort intPort name s :
  let '(res, s', t) := addMapping protocol extPort intPort name s in
  let '(g1, err1) := AddMapping (gateway s) protocol extPort intPort name mapTimeout in
  let '(g2, err2) := AddMapping g1 protocol extPort intPort name 0 in
  mapTimeout = 20 * (60 * 1000000000) ∧
  add_calls t = (mapTimeout, err1) :: (if err1 is Some _ then [(0, err2)] else []) ∧
  List.filter is_add t =
    EvAddMapping protocol extPort intPort name mapTimeout err1
    :: (if err1 is Some _
        then [EvAddMapping protocol extPort intPort name 0 err2] else []) ∧
  (length (add_calls t) = 2%nat ↔ is_Some err1) ∧
  (res = None ↔ err1 = None ∨ err2 = None) ∧
  (is_Some res ↔ is_Some err1 ∧ is_Some err2) ∧
  (∀ e2, is_Some err1 → err2 = Some e2 →
     res = Some ("couldn't add port mapping for port " +:+ fmt_d extPort
                 +:+ ": " +:+ e2)) ∧
  gateway s' = (if err1 is Some _ then g2 else g1) ∧
  sender s' = sender s.
Proof.
  rewrite addMapping_unfold.
  destruct (AddMapping (gateway s) _ _ _ _ mapTimeout) as [g1 [e1|]];
    destruct (AddMapping g1 _ _ _ _ 0) as [g2 [e2|]]; simpl;
    repeat split; intros; simplify_eq;
    try done; try (by eexists); try (by left); try (by right);
    try (by destruct_or?; simplify_eq);
    try (by destruct_and?; match goal with H : is_Some None |- _ => destruct H end).
Qed.

Lemma addMapping_events protocol extPort intPort name s :
  Forall (add_event_of protocol extPort intPort name)
    (addMapping protocol extPort intPort name s).2.
Proof.
  rewrite addMapping_unfold.
  destruct (AddMapping (gateway s) _ _ _ _ mapTimeout) as [g1 [e1|]];
    [destruct (AddMapping g1 _ _ _ _ 0) as [g2 [e2|]]|]; simpl;
    repeat constructor.
Qed.

Lemma add_event_counts protocol extPort intPort name t :
  Forall (add_event_of protocol extPort intPort name) t →
  count is_delete t = 0%nat ∧ count is_select t = 0%nat ∧
  count is_quit t = 0%nat ∧ count is_notify t = 0%nat ∧
  Forall (λ e, ∀ p, gateway_ports e = Some p → p = (extPort, intPort)) t.
Proof.
  intros Ht. rewrite !count_zero_Forall. repeat split.
  all: eapply Forall_impl; [exact Ht|]; intros [] He; simpl in *; try done.
  intros p [= <-]. destruct He as (_ & -> & -> & _). done.
Qed.

(** The loop body: [addMapping], a log line and one call of the sender. *)
Lemma iteration_unfold protocol extPort intPort name s :
  iteration protocol extPort intPort name s =
  let '(err, s1, t1) := addMapping protocol extPort intPort name s in
  match err with
  | Some e =>
    let '(m, r) := SendNATMappingFailEvent (sender s1) e in
    (tt, State (gateway s1) m,
     t1 ++ [EvLog LInfo (logPrefix +:+ ", Mapping for port " +:+ fmt_d extPort
                         +:+ " failed: " +:+ e);
            EvFailEvent e r])
  | None =>
    let '(m, r) := SendNATMappingSuccessEvent (sender s1) in
    (tt, State (gateway s1) m,
     t1 ++ [EvLog LInfo ("%s, Mapped network port: %d" +:+ logPrefix
                         +:+ fmt_d extPort);
            EvSuccessEvent r])
  end.
Proof.
  unfold iteration, sendFail, sendSuccess, log. prog_unfold.
  destruct (addMapping _ _ _ _ s) as [[[e|] s1] t1]; simpl.
  - by destruct (SendNATMappingFailEvent _ _).
  - by destruct (SendNATMappingSuccessEvent _).
Qed.

Lemma iteration_counts protocol extPort intPort name s :
  let t := (iteration protocol extPort intPort name s).2 in
  count is_delete t = 0%nat ∧ count is_select t = 0%nat ∧
  count is_quit t = 0%nat ∧ count is_notify t = 1%nat ∧
  Forall (λ e, ∀ p, gateway_ports e = Some p → p = (extPort, intPort)) t.
Proof.
  rewrite iteration_unfold.
  pose proof (addMapping_events protocol extPort intPort name s) as Ht.
  apply add_event_counts in Ht as (Hd & Hs & Hq & Hn & Hp).
  destruct (addMapping _ _ _ _ s) as [[[e|] s1] t1]; simpl in *.
  - destruct (SendNATMappingFailEvent _ _) as [m r]; simpl.
    rewrite !count_app, Hd, Hs, Hq, Hn, Forall_app. repeat split; try done.
    repeat constructor; by intros.
  - destruct (SendNATMappingSuccessEvent _) as [m r]; simpl.
    rewrite !count_app, Hd, Hs, Hq, Hn, Forall_app. repeat split; try done.
    repeat constructor; by intros.
Qed.

Lemma mapPort_loop_unfold fuel quit i protocol extPort intPort name s :
  mapPort_loop (S fuel) quit i protocol extPort intPort name s =
  let '(_, s1, t1) := iteration protocol extPort intPort name s in
  if quit i then (Returned, s1, t1 ++ [EvSelect CaseQuit])
  else
    let '(r, s2, t2) :=
      mapPort_loop fuel quit (S i) protocol extPort intPort name s1 in
    (r, s2, t1 ++ EvSelect (CaseTimer mapUpdateInterval) :: t2).
Proof.
  simpl. prog_unfold.
  destruct (iteration _ _ _ _ s) as [[[] s1] t1].
  destruct (quit i); [done|].
  by destruct (mapPort_loop _ _ _ _ _ _ _ s1) as [[r s2] t2].
Qed.

(** The loop, whatever the gateway answers: it deletes nothing, notifies the
    sender once per iteration, and returns exactly at the first iteration
    whose [select] takes the quit case. *)
Lemma mapPort_loop_spec quit protocol extPort intPort name fuel :
  ∀ i s,
  let '(r, s', t) := mapPort_loop fuel quit i protocol extPort intPort name s in
  count is_delete t = 0%nat ∧
  Forall (λ e, ∀ p, gateway_ports e = Some p → p = (extPort, intPort)) t ∧
  match r with
  | StillRunning =>
    (∀ j, (j < fuel)%nat → quit (i + j)%nat = false) ∧
    count is_select t = fuel ∧ count is_notify t = fuel ∧ count is_quit t = 0%nat
  | Returned =>
    ∃ n t0, (n < fuel)%nat ∧ quit (i + n)%nat = true ∧
      (∀ j, (j < n)%nat → quit (i + j)%nat = false) ∧
      t = t0 ++ [EvSelect CaseQuit] ∧
      count is_quit t0 = 0%nat ∧ count is_select t0 = n ∧
      count is_notify t0 = S n
  end.
Proof.
  induction fuel as [|fuel IH]; intros i s.
  - simpl. repeat split; try done. intros; lia.
  - rewrite mapPort_loop_unfold.
    pose proof (iteration_counts protocol extPort intPort name s) as Hit.
    destruct (iteration _ _ _ _ s) as [[[] s1] t1]; simpl in Hit.
    destruct Hit as (Hd & Hs & Hq & Hn & Hp).
    destruct (quit i) eqn:Hqi.
    + rewrite count_app, Hd, Forall_app. repeat split; try done.
      { repeat constructor; by intros. }
      exists 0%nat, t1. rewrite Nat.add_0_r. repeat split; try done; try lia.
    + specialize (IH (S i) s1).
      destruct (mapPort_loop _ _ _ _ _ _ _ s1) as [[r s2] t2].
      destruct IH as (Hd2 & Hp2 & Hr).
      rewrite count_app, Hd, Forall_app. simpl. repeat split; try done.
      { constructor; [by intros|done]. }
      destruct r.
      * destruct Hr as (n & t0 & Hlt & Hqn & Hbefore & -> & Hq0 & Hs0 & Hn0).
        exists (S n), (t1 ++ EvSelect (CaseTimer mapUpdateInterval) :: t0).
        repeat split; try lia.
        -- by rewrite Nat.add_succ_r.
        -- intros [|j] Hj; [by rewrite Nat.add_0_r|].
           rewrite Nat.add_succ_r. apply Hbefore. lia.
        -- by rewrite <- app_assoc.
        -- rewrite count_app, Hq. simpl. exact Hq0.
        -- rewrite count_app, Hs. unfold count in *. simpl. by rewrite Hs0.
        -- rewrite count_app, Hn. unfold count in *. simpl. by rewrite Hn0.
      * destruct Hr as (Hnone & Hs2 & Hn2 & Hq2). repeat split.
        -- intros [|j] Hj; [by rewrite Nat.add_0_r|].
           rewrite Nat.add_succ_r. apply Hnone. lia.
        -- rewrite count_app, Hs. unfold count in *. simpl. by rewrite Hs2.
        -- rewrite count_app, Hn. unfold count in *. simpl. by rewrite Hn2.
        -- rewrite count_app, Hq. unfold count in *. simpl. exact Hq2.
Qed.

Lemma mapPort_unfold fuel quit protocol extPort intPort name s :
  mapPort fuel quit protocol extPort intPort name s =
  let '(r, s1, t1) := mapPort_loop fuel quit 0 protocol extPort intPort name s in
  match r with
  | Returned =>
    let '(g, err) := DeleteMapping (gateway s1) protocol extPort intPort in
    (Returned, State g (sender s1),
     t1 ++ deferred_events protocol extPort intPort err)
  | StillRunning => (StillRunning, s1, t1)
  end.
Proof.
  unfold mapPort, mapPort_deferred, m_DeleteMapping, log, deferred_events.
  prog_unfold.
  destruct (mapPort_loop _ _ _ _ _ _ _ s) as [[[] s1] t1]; simpl.
  - destruct (DeleteMapping _ _ _ _) as [g [e|]]; simpl; by rewrite ?app_nil_r.
  - by rewrite app_nil_r.
Qed.

Lemma deferred_events_counts protocol extPort intPort err :
  let t := deferred_events protocol extPort intPort err in
  count is_delete t = 1%nat ∧ count is_add t = 0%nat ∧
  count is_select t = 0%nat ∧ count is_notify t = 0%nat ∧
  Forall (λ e, ∀ p, gateway_ports e = Some p → p = (extPort, intPort)) t.
Proof.
  destruct err; simpl; repeat split; try done;
    repeat constructor; intros p; simpl; congruence.
Qed.

(** C2.  For every run of [mapPort], whatever the gateway answers: the run
    returns exactly when some [select] takes the quit case, never because a
    mapping attempt failed; when it returns, the quit case is the last thing
    the loop did, and what follows is the deferred function: one
    [DeleteMapping] call, its error logged and returned to nobody, and no
    [AddMapping] call.  While no [select] takes the quit case the loop runs
    every iteration it is given and deletes nothing. *)
Theorem mapPort_returns_only_on_cancel fuel quit protocol extPort intPort name s :
  let '(r, s', t) := mapPort fuel quit protocol extPort intPort name s in
  (r = Returned ↔ ∃ n, (n < fuel)%nat ∧ quit n = true) ∧
  match r with
  | Returned =>
    ∃ n t0 err,
      (n < fuel)%nat ∧ quit n = true ∧ (∀ j, (j < n)%nat → quit j = false) ∧
      t = t0 ++ EvSelect CaseQuit :: deferred_events protocol extPort intPort err ∧
      count is_quit t0 = 0%nat ∧ count is_delete t0 = 0%nat ∧
      count is_select t0 = n ∧
      count is_add (deferred_events protocol extPort intPort err) = 0%nat ∧
      count is_delete t = 1%nat
  | StillRunning =>
    count is_select t = fuel ∧ count is_quit t = 0%nat ∧
    count is_delete t = 0%nat
  end.
Proof.
  rewrite mapPort_unfold.
  pose proof (mapPort_loop_spec quit protocol extPort intPort name fuel 0%nat s) as H.
  destruct (mapPort_loop _ _ _ _ _ _ _ s) as [[[] s1] t1].
  - destruct H as (Hd & _ & n & t0 & Hlt & Hq & Hbefore & -> & Hq0 & Hs0 & _).
    destruct (DeleteMapping _ _ _ _) as [g err]. split.
    + split; [intros _; by exists n | done].
    + pose proof (deferred_events_counts protocol extPort intPort err)
        as (Hdd & Hda & _).
      exists n, t0, err. rewrite <- app_assoc. simpl.
      rewrite count_app in Hd. repeat split; try done; try lia.
      change (t0 ++ EvSelect CaseQuit :: ?d) with (t0 ++ [EvSelect CaseQuit] ++ d).
      rewrite !count_app, Hdd. unfold count in *. simpl in *. lia.
  - destruct H as (Hd & _ & Hnone & Hs & _ & Hq). split; [|done].
    split; [done|]. intros (n & Hlt & Hqn).
    specialize (Hnone n Hlt). simpl in Hnone. congruence.
Qed.

(** Every call made to the gateway by the task that [PortMapping] starts
    carries the one port for both the external and the internal port. *)
Lemma mapPort_ports fuel quit protocol extPort intPort name s :
  Forall (λ e, ∀ p, gateway_ports e = Some p → p = (extPort, intPort))
    (mapPort fuel quit protocol extPort intPort name s).2.
Proof.
  rewrite mapPort_unfold.
  pose proof (mapPort_loop_spec quit protocol extPort intPort name fuel 0%nat s) as H.
  destruct (mapPort_loop _ _ _ _ _ _ _ s) as [[[] s1] t1].
  - destruct H as (_ & Hp & _). destruct (DeleteMapping _ _ _ _) as [g err]. simpl.
    rewrite Forall_app. split; [done|].
    by pose proof (deferred_events_counts protocol extPort intPort err)
      as (_ & _ & _ & _ & ?).
  - by destruct H as (_ & Hp & _).
Qed.

(** C10.  [PortMapping] starts its task with the one port it is given as both
    the external and the internal port, so every [AddMapping] and
    [DeleteMapping] call of that task has equal ports. *)
Theorem PortMapping_maps_port_to_itself protocol port name ms (rt : runtime M) :
  let '(f, rt') := PortMapping protocol port name ms rt in
  ∃ c, goroutines rt' = goroutines rt ++ [Go_mapPort c protocol port port name ms] ∧
       ∀ (any : G) fuel quit,
         Forall (λ e, ∀ p, gateway_ports e = Some p → p = (port, port))
           (run_goroutine (Go_mapPort c protocol port port name ms) any fuel quit).2.
Proof.
  unfold PortMapping, make_chan, go. simpl. eexists. split; [done|].
  intros any fuel quit. apply mapPort_ports.
Qed.

(** C4, as the code has it.  The function [PortMapping] returns can be called
    once: the first call closes the quit channel, returns (it neither panics
    nor blocks) and touches nothing else; it is not idempotent: on any state
    where that channel is closed, so on every later call, it panics. *)
Theorem cancel_closes_once_then_panics protocol port name ms (rt : runtime M) :
  let '(f, rt1) := PortMapping protocol port name ms rt in
  ∃ c rt2,
    f = func_close c ∧
    call f rt1 = Returns rt2 ∧
    chans rt1 !! c = Some Open ∧
    chans rt2 = <[c := Closed]> (chans rt1) ∧
    goroutines rt2 = goroutines rt1 ∧
    call f rt2 = Panics "close of closed channel" ∧
    ∀ rt3 : runtime M, chans rt3 !! c = Some Closed →
      call f rt3 = Panics "close of closed channel".
Proof.
  unfold PortMapping, make_chan, go. simpl.
  set (c := length (chans rt)).
  set (g := Go_mapPort c protocol port port name ms).
  assert (Hopen : (chans rt ++ [Open]) !! c = Some Open).
  { unfold c. by rewrite lookup_app_r, Nat.sub_diag by lia. }
  assert (Hclosed : <[c := Closed]> (chans rt ++ [Open]) !! c = Some Closed).
  { apply list_lookup_insert_eq. unfold c. rewrite length_app. simpl. lia. }
  exists c, (Runtime (<[c := Closed]> (chans rt ++ [Open])) (goroutines rt ++ [g])).
  unfold call, close. simpl. rewrite Hopen, Hclosed.
  repeat split; try done. by intros rt3 ->.
Qed.

(** C7.  [GetPortMappingFunc] starts no task and returns a function whose
    call changes nothing exactly when the two addresses are equal; when they
    differ it is [PortMapping]. *)
Theorem GetPortMappingFunc_noop_iff_same_IP
    pubIP outIP protocol port description ms (rt : runtime M) :
  let '(f, rt') := GetPortMappingFunc pubIP outIP protocol port description ms rt in
  ((goroutines rt' = goroutines rt ∧ ∀ r : runtime M, call f r = Returns r)
   ↔ pubIP = outIP) ∧
  (pubIP = outIP ↔ f = func_empty ∧ rt' = rt) ∧
  (pubIP ≠ outIP ↔
   (f, rt') = PortMapping protocol port description ms rt ∧
   ∃ c, f = func_close c ∧
        goroutines rt' =
        goroutines rt ++ [Go_mapPort c protocol port port description ms]).
Proof.
  unfold GetPortMappingFunc.
  destruct (String.eqb_spec pubIP outIP) as [->|Hne]; simpl.
  - split; [done|]. split; [done|]. split; [done|].
    intros [[=] _].
  - assert (Hgrow : ∀ l (g : goroutine M), l ++ [g] ≠ l).
    { intros l g Heq. apply (f_equal length) in Heq.
      rewrite length_app in Heq. simpl in Heq. lia. }
    unfold PortMapping, make_chan, go. simpl. split; [|split].
    + split; [|done]. intros [Heq _]. by apply Hgrow in Heq.
    + split; [done|]. intros [[=] _].
    + split; [|done]. intros _. split; [done|]. by eexists.
Qed.

Lemma mapPort_notify_count fuel quit protocol extPort intPort name s :
  let t := (mapPort fuel quit protocol extPort intPort name s).2 in
  count is_notify t = count is_select t.
Proof.
  rewrite mapPort_unfold.
  pose proof (mapPort_loop_spec quit protocol extPort intPort name fuel 0%nat s) as H.
  destruct (mapPort_loop _ _ _ _ _ _ _ s) as [[[] s1] t1].
  - destruct H as (_ & _ & n & t0 & _ & _ & _ & -> & _ & Hs0 & Hn0).
    destruct (DeleteMapping _ _ _ _) as [g err]. simpl.
    pose proof (deferred_events_counts protocol extPort intPort err)
      as (_ & _ & Hds & Hdn & _).
    rewrite !count_app, Hds, Hdn, Hs0, Hn0. unfold count. simpl. lia.
  - destruct H as (_ & _ & _ & Hs & Hn & _). simpl. congruence.
Qed.

End mapper.

Section two_senders.
Context {G M1 M2 : Type} `{!Interface G} `{!metricsSender M1} `{!metricsSender M2}.

Lemma iteration_same_run protocol extPort intPort name
    (s1 : state G M1) (s2 : state G M2) :
  gateway s1 = gateway s2 →
  same_run (iteration protocol extPort intPort name s1)
           (iteration protocol extPort intPort name s2).
Proof.
  intros Hg. rewrite !iteration_unfold, !addMapping_unfold, Hg.
  destruct (AddMapping (gateway s2) _ _ _ _ mapTimeout) as [g1 [e1|]];
    [destruct (AddMapping g1 _ _ _ _ 0) as [g2 [e2|]]|]; simpl;
    repeat match goal with
           | |- context [SendNATMappingFailEvent ?m ?e] =>
             destruct (SendNATMappingFailEvent m e)
           | |- context [SendNATMappingSuccessEvent ?m] =>
             destruct (SendNATMappingSuccessEvent m)
           end; done.
Qed.

Lemma mapPort_loop_same_run quit protocol extPort intPort name fuel :
  ∀ i (s1 : state G M1) (s2 : state G M2),
  gateway s1 = gateway s2 →
  same_run (mapPort_loop fuel quit i protocol extPort intPort name s1)
           (mapPort_loop fuel quit i protocol extPort intPort name s2).
Proof.
  induction fuel as [|fuel IH]; intros i s1 s2 Hg; [done|].
  rewrite !mapPort_loop_unfold.
  pose proof (iteration_same_run protocol extPort intPort name s1 s2 Hg) as Hit.
  destruct (iteration _ _ _ _ s1) as [[[] s1'] t1].
  destruct (iteration _ _ _ _ s2) as [[[] s2'] t2].
  destruct Hit as (_ & Hg' & Ht). simpl in Hg', Ht.
  destruct (quit i).
  - unfold same_run; simpl. split_and!; [done..|]. by rewrite !fmap_app, Ht.
  - specialize (IH (S i) s1' s2' Hg').
    destruct (mapPort_loop _ _ _ _ _ _ _ s1') as [[r1 s1''] t1'].
    destruct (mapPort_loop _ _ _ _ _ _ _ s2') as [[r2 s2''] t2'].
    destruct IH as (Hr & Hg'' & Ht'). simpl in *.
    unfold same_run; simpl. split_and!; [done..|].
    by rewrite !fmap_app, !fmap_cons, Ht, Ht'.
Qed.

Lemma mapPort_same_run fuel quit protocol extPort intPort name
    (s1 : state G M1) (s2 : state G M2) :
  gateway s1 = gateway s2 →
  same_run (mapPort fuel quit protocol extPort intPort name s1)
           (mapPort fuel quit protocol extPort intPort name s2).
Proof.
  intros Hg. rewrite !mapPort_unfold.
  pose proof (mapPort_loop_same_run quit protocol extPort intPort name fuel
                0%nat s1 s2 Hg) as H.
  destruct (mapPort_loop _ _ _ _ _ _ _ s1) as [[r1 s1'] t1].
  destruct (mapPort_loop _ _ _ _ _ _ _ s2) as [[r2 s2'] t2].
  destruct H as (Hr & Hg' & Ht). simpl in *. subst r2. rewrite Hg'.
  destruct r1; [|done].
  destruct (DeleteMapping _ _ _ _) as [g err].
  unfold same_run; simpl. split_and!; [done..|]. by rewrite !fmap_app, Ht.
Qed.

(** C8.  Each iteration of the loop ends with exactly one call of the metrics
    sender: the success event when [addMapping] returned nil, the failure
    event with that error otherwise; a whole run makes one such call per
    iteration; and what the sender answers is used by nothing: two runs on
    the same gateway with any two senders make the same gateway calls, take
    the same cases and return alike. *)
Theorem sender_notified_once_per_iteration
    fuel quit protocol extPort intPort name (g : G) (m1 : M1) (m2 : M2) :
  (let '(err, s1, t1) := addMapping protocol extPort intPort name (State g m1) in
   let '(_, s', t) := iteration protocol extPort intPort name (State g m1) in
   ∃ line answer,
     t = t1 ++ [EvLog LInfo line;
                match err with
                | None => EvSuccessEvent answer
                | Some e => EvFailEvent e answer
                end] ∧
     count is_notify t = 1%nat ∧ gateway s' = gateway s1) ∧
  (let t := (mapPort fuel quit protocol extPort intPort name (State g m1)).2 in
   count is_notify t = count is_select t) ∧
  same_run (mapPort fuel quit protocol extPort intPort name (State g m1))
           (mapPort fuel quit protocol extPort intPort name (State g m2)).
Proof.
  split; [|split].
  - pose proof (iteration_counts protocol extPort intPort name (State g m1))
      as (_ & _ & _ & Hn & _).
    rewrite iteration_unfold in *.
    destruct (addMapping _ _ _ _ _) as [[[e|] s1] t1]; simpl in *.
    + destruct (SendNATMappingFailEvent _ _) as [m r]. by eexists _, _.
    + destruct (SendNATMappingSuccessEvent _) as [m r]. by eexists _, _.
  - apply mapPort_notify_count.
  - by apply mapPort_same_run.
Qed.

End two_senders.
End MappingFacts.

(** * Properties of the connection sharing service *)

Module ServiceICSFacts.
Import ServiceICS.

Section service.
Context {RuleForwarding IP IPNet W : Type} `{!Platform RuleForwarding IP IPNet W}.
Implicit Types (s : state RuleForwarding W) (t : list (event RuleForwarding))
  (host : Host IP) (rule : RuleForwarding) (m : gmap string RuleForwarding).


Lemma first_error_None l : first_error l = None ↔ Forall (λ e, e = None) l.
Proof.
  induction l as [|[e|] l IH]; simpl.
  - split; [constructor|done].
  - split; [done|]. intros [[=] _]%Forall_cons.
  - rewrite IH, Forall_cons. split; [by split|by intros [_ ?]].
Qed.

Lemma keep_first_first_error resErr err :
  keep_first resErr err = first_error [resErr; err].
Proof. by destruct resErr, err. Qed.

Lemma del_records_app t1 t2 :
  del_records (t1 ++ t2) = del_records t1 ++ del_records t2.
Proof. apply omap_app. Qed.

(** [applySharingConfig], case by case. *)
Lemma applySharingConfig_unfold action ifaceName s :
  applySharingConfig action ifaceName s =
  if (String.length action =? 0)%nat then
    (errors_New "empty action provided", s,
     [EvApplySharingConfig action ifaceName (errors_New "empty action provided")])
  else if (String.length ifaceName =? 0)%nat then
    (errors_New "empty interface name provided", s,
     [EvApplySharingConfig action ifaceName
        (errors_New "empty interface name provided")])
  else
    let '(w, (out, err)) := shell (os s) (sharing_script action ifaceName) in
    (err, State (svc s) w,
     [EvPowerShell (sharing_script action ifaceName) out err;
      EvApplySharingConfig action ifaceName err]).
Proof.
  unfold applySharingConfig, powerShell. prog_unfold.
  destruct (String.length action =? 0)%nat; [done|].
  destruct (String.length ifaceName =? 0)%nat; [done|].
  by destruct (shell _ _) as [w [out err]].
Qed.

(** What every call of [applySharingConfig] does: at most one PowerShell
    command, then the record of the call; the service's fields are left
    alone. *)
Lemma applySharingConfig_spec action ifaceName s :
  let '(err, s', t) := applySharingConfig action ifaceName s in
  svc s' = svc s ∧
  ∃ pre, t = pre ++ [EvApplySharingConfig action ifaceName err] ∧
         (pre = [] ∨ ∃ out, pre = [EvPowerShell (sharing_script action ifaceName) out err]).
Proof.
  rewrite applySharingConfig_unfold.
  destruct (String.length action =? 0)%nat; [by split; [|exists []; split; [|left]]|].
  destruct (String.length ifaceName =? 0)%nat; [by split; [|exists []; split; [|left]]|].
  destruct (shell _ _) as [w [out err]]. split; [done|].
  eexists [_]. split; [done|]. right. by eexists.
Qed.

(** [Add], case by case. *)
Lemma Add_unfold host rule s :
  Add host rule s =
  let '(ifaceName, rerr) := getInterfaceBySubnet host (SourceAddress rule) in
  match rerr with
  | Some _ => (errors_Wrap rerr "failed to find suitable interface", s, [])
  | None =>
    let '(aerr, s1, t1) := applySharingConfig enablePrivateSharing ifaceName s in
    match aerr with
    | Some _ =>
      (errors_Wrap aerr
         "failed to enable internet connection sharing for internal interface",
       s1, t1)
    | None =>
      (None,
       State (ICS (<[ifaceName := rule]> (ifaces (svc s1)))
                  (remoteAccessStatus (svc s1))) (os s1),
       t1 ++ [EvLock; EvAccess f_ifaces Write; EvUnlock])
    end
  end.
Proof.
  unfold Add. destruct (getInterfaceBySubnet _ _) as [ifaceName [e|]]; [done|].
  unfold Lock, Unlock, store_iface. prog_unfold.
  destruct (applySharingConfig _ _ s) as [[[e|] s1] t1]; simpl;
    by rewrite ?app_nil_r.
Qed.

(** [Del], case by case. *)
Lemma Del_unfold host rule s :
  Del host rule s =
  let '(ifaceName, rerr) := getInterfaceBySubnet host (SourceAddress rule) in
  match rerr with
  | Some _ =>
    let err := errors_Wrap rerr "failed to find suitable interface" in
    (err, s, [EvDel rule err])
  | None =>
    let '(aerr, s1, t1) := applySharingConfig disableSharing ifaceName s in
    match aerr with
    | Some _ =>
      let err := errors_Wrap aerr
        "failed to disable internet connection sharing for internal interface" in
      (err, s1, t1 ++ [EvDel rule err])
    | None =>
      (None,
       State (ICS (delete ifaceName (ifaces (svc s1)))
                  (remoteAccessStatus (svc s1))) (os s1),
       t1 ++ [EvLock; EvAccess f_ifaces Write; EvUnlock; EvDel rule None])
    end
  end.
Proof.
  unfold Del. destruct (getInterfaceBySubnet _ _) as [ifaceName [e|]]; [done|].
  unfold Lock, Unlock, delete_iface. prog_unfold.
  destruct (applySharingConfig _ _ s) as [[[e|] s1] t1]; simpl;
    by rewrite <- ?app_assoc, ?app_nil_r.
Qed.



(** One step of the loop, case by case. *)
Lemma Disable_visit_unfold host iface resErr s :
  Disable_visit host iface resErr s =
  match ifaces (svc s) !! iface with
  | None => (resErr, s, [EvAccess f_ifaces Read])
  | Some rule =>
    let '(err, s1, t1) := Del host rule s in
    match err with
    | Some _ =>
      (keep_first resErr err, s1,
       EvAccess f_ifaces Read :: t1
       ++ [EvLog (natLogPrefix
                  +:+ " Failed to cleanup internet connection sharing for '"
                  +:+ iface +:+ "' interface: " +:+ fmt_v err)])
    | None => (resErr, s1, EvAccess f_ifaces Read :: t1)
    end
  end.
Proof.
  unfold Disable_visit, load_ifaces, log. prog_unfold.
  destruct (ifaces (svc s) !! iface) as [rule|]; [|done].
  destruct (Del host rule s) as [[[e|] s1] t1]; simpl; by rewrite ?app_nil_r.
Qed.

Lemma Disable_range_cons host iface order resErr s :
  Disable_range host (iface :: order) resErr s =
  let '(resErr1, s1, t1) := Disable_visit host iface resErr s in
  let '(res, s2, t2) := Disable_range host order resErr1 s1 in
  (res, s2, t1 ++ t2).
Proof. reflexivity. Qed.


Lemma getPublicInterfaceName_spec host s :
  let '((name, err), s', t) := getPublicInterfaceName host s in
  svc s' = svc s ∧
  ∃ out perr, t = [EvPowerShell default_route_query out perr;
                   EvGetPublicInterfaceName name err].
Proof.
  unfold getPublicInterfaceName, powerShell. prog_unfold.
  destruct (shell _ _) as [w [out [e|]]]; simpl; [by eauto|].
  destruct (Atoi _) as [ifaceID|e]; simpl; [|by eauto].
  destruct host as [l|e]; simpl; [|by eauto].
  destruct (interface_by_index ifaceID l) as [name err]. simpl. by eauto.
Qed.

Lemma record_failure_run resErr err msg s :
  record_failure resErr err msg s =
  (first_error [resErr; errors_Wrap err msg], s, failure_log (errors_Wrap err msg)).
Proof. by destruct resErr, err. Qed.

(** [Disable] as the sequence of its four phases: each runs on the state the
    one before left, whatever the one before returned. *)
Lemma Disable_unfold host order s :
  Disable host order s =
  let '(r1, s1, t1) := Disable_range host order None s in
  let '(w2, (out2, err2)) :=
    shell (os s1) ("Set-Service -Name RemoteAccess -StartupType "
                   +:+ remoteAccessStatus (svc s1)) in
  let e2 := errors_Wrap err2 "failed to revert RemoteAccess service startup type" in
  let '((name, err3), s3, t3) := getPublicInterfaceName host (State (svc s1) w2) in
  let e3 := errors_Wrap err3 "failed to get public interface name" in
  let '(err4, s4, t4) := applySharingConfig disableSharing name s3 in
  let e4 := errors_Wrap err4 "failed to disable internet connection sharing" in
  (first_error [r1; e2; e3; e4], s4,
   t1 ++ [EvAccess f_remoteAccessStatus Read;
          EvPowerShell ("Set-Service -Name RemoteAccess -StartupType "
                        +:+ remoteAccessStatus (svc s1)) out2 err2]
      ++ failure_log e2 ++ t3 ++ failure_log e3 ++ t4 ++ failure_log e4).
Proof.
  unfold Disable, mbind, prog_bind, bind, load_remoteAccessStatus, powerShell.
  destruct (Disable_range host order None s) as [[r1 s1] t1]. simpl.
  destruct (shell _ _) as [w2 [out2 err2]]. rewrite record_failure_run. simpl.
  destruct (getPublicInterfaceName _ _) as [[[name err3] s3] t3].
  rewrite record_failure_run.
  destruct (applySharingConfig _ _ s3) as [[err4 s4] t4].
  rewrite record_failure_run. unfold mret, prog_ret, ret. simpl.
  rewrite app_nil_r. f_equal; try (by rewrite <- !app_assoc). f_equal.
  by destruct r1, err2, err3, err4.
Qed.

Lemma del_records_failure_log err : del_records (failure_log err) = [].
Proof. by destruct err. Qed.

Lemma errors_Wrap_None err msg : errors_Wrap err msg = None ↔ err = None.
Proof. by destruct err. Qed.


Lemma contains_false ipnet addrs :
  contains ipnet addrs = false ↔
  Forall (λ addr, Contains ipnet (addr_ip addr) = false) addrs.
Proof.
  induction addrs as [|addr addrs IH]; simpl.
  - split; [constructor|done].
  - rewrite Forall_cons. destruct (Contains ipnet (addr_ip addr)).
    + split; [done|by intros [? _]].
    + rewrite IH. split; [by split|by intros [_ ?]].
Qed.

Lemma interface_by_subnet_none ipnet (l : list (Interface IP)) :
  Forall (λ iface, ∃ addrs, Addrs iface = Ok addrs ∧
                            Forall (λ addr, Contains ipnet (addr_ip addr) = false)
                              addrs) l →
  interface_by_subnet ipnet l = (EmptyString, errors_New "interface not found").
Proof.
  induction 1 as [|iface l (addrs & Ha & Hc) _ IH]; simpl; [done|].
  apply contains_false in Hc. by rewrite Ha, Hc.
Qed.

(** C6.  [Add] is all or nothing: it returns an error exactly when the
    interface cannot be resolved or the sharing action fails, and then the
    map is as it was; in particular, when no interface has an address in the
    rule's subnet the error is "interface not found"; only when both steps
    succeed is the rule recorded, under the name of the resolved interface. *)
Theorem Add_all_or_nothing host rule s :
  let '(res, s', t) := Add host rule s in
  let '(ifaceName, rerr) := getInterfaceBySubnet host (SourceAddress rule) in
  let aerr := (applySharingConfig enablePrivateSharing ifaceName s).1.1 in
  (is_Some res ↔ is_Some rerr ∨ is_Some aerr) ∧
  (is_Some res → ifaces (svc s') = ifaces (svc s)) ∧
  (res = None → ifaces (svc s') = <[ifaceName := rule]> (ifaces (svc s))) ∧
  (is_Some rerr →
     res = errors_Wrap rerr "failed to find suitable interface" ∧ t = []) ∧
  (rerr = None → is_Some aerr →
     res = errors_Wrap aerr
             "failed to enable internet connection sharing for internal interface") ∧
  (∀ ipnet l,
     ParseCIDR (SourceAddress rule) = Ok ipnet → host = Ok l →
     Forall (λ iface, ∃ addrs, Addrs iface = Ok addrs ∧
               Forall (λ addr, Contains ipnet (addr_ip addr) = false) addrs) l →
     res = Some "failed to find suitable interface: interface not found" ∧
     ifaces (svc s') = ifaces (svc s)) ∧
  remoteAccessStatus (svc s') = remoteAccessStatus (svc s).
Proof.
  rewrite Add_unfold.
  assert (Hnone : ∀ ipnet l,
    ParseCIDR (SourceAddress rule) = Ok ipnet → host = Ok l →
    Forall (λ iface, ∃ addrs, Addrs iface = Ok addrs ∧
              Forall (λ addr, Contains ipnet (addr_ip addr) = false) addrs) l →
    getInterfaceBySubnet host (SourceAddress rule)
    = (EmptyString, errors_New "interface not found")).
  { intros ipnet l Hp -> Hl. unfold getInterfaceBySubnet. rewrite Hp.
    by apply interface_by_subnet_none. }
  destruct (getInterfaceBySubnet _ _) as [ifaceName [e|]] eqn:Hr.
  - cbv zeta. split_and!; try done.
    + split; [by left|by eexists].
    + intros ipnet l Hp Hh Hl. specialize (Hnone ipnet l Hp Hh Hl).
      unfold errors_New in Hnone. injection Hnone as -> ->.
      split; reflexivity.
  - pose proof (applySharingConfig_spec enablePrivateSharing ifaceName s) as Ha.
    destruct (applySharingConfig _ _ s) as [[[e|] s1] t1];
      destruct Ha as (Hsvc & _); cbv zeta; simpl; rewrite ?Hsvc.
    + split_and!; try done.
      * split; [by right|by eexists].
      * intros ipnet l Hp Hh Hl. by specialize (Hnone ipnet l Hp Hh Hl).
    + split_and!; try done;
        try (by intros [? [=]]); try (by intros _ [? [=]]).
      * split; [by intros [? [=]]|by intros [[? [=]]|[? [=]]]].
      * intros ipnet l Hp Hh Hl. by specialize (Hnone ipnet l Hp Hh Hl).
Qed.

Lemma filter_apply_of_sharing action action' ifaceName s :
  let '(err, _, t) := applySharingConfig action ifaceName s in
  List.filter (is_apply_of action') t =
  if String.eqb action action'
  then [EvApplySharingConfig action ifaceName err] else [].
Proof.
  pose proof (applySharingConfig_spec action ifaceName s) as H.
  destruct (applySharingConfig _ _ s) as [[err s'] t].
  destruct H as (_ & pre & -> & [->|[out ->]]); simpl;
    by destruct (String.eqb action action').
Qed.

(** C9, as the code has it.  [Del] does not look up what [Add] recorded: it
    resolves the subnet again, on the interfaces the host has when it is
    called.  For a rule whose subnet resolves to a local interface when [Add]
    is called, on the host [hostA], and to the same interface when [Del] is
    called, on the host [hostD], a successful [Add] followed by a successful
    [Del] of a rule with the same subnet leaves the map without an entry for
    that interface (the map is empty if it held no other interface), and
    between them the disable action is applied exactly once, to the
    interface [Add] resolved. *)
Theorem Add_then_Del_removes_entry hostA hostD rule rule' name s s1 t1 s2 t2 :
  getInterfaceBySubnet hostA (SourceAddress rule) = (name, None) →
  SourceAddress rule' = SourceAddress rule →
  getInterfaceBySubnet hostD (SourceAddress rule) = (name, None) →
  Add hostA rule s = (None, s1, t1) →
  Del hostD rule' s1 = (None, s2, t2) →
  ifaces (svc s1) = <[name := rule]> (ifaces (svc s)) ∧
  ifaces (svc s2) = delete name (ifaces (svc s)) ∧
  ifaces (svc s2) !! name = None ∧
  (dom (ifaces (svc s)) ⊆ {[name]} → ifaces (svc s2) = ∅) ∧
  List.filter (is_apply_of disableSharing) (t1 ++ t2)
  = [EvApplySharingConfig disableSharing name None] ∧
  ∃ out, List.filter is_shell t2
         = [EvPowerShell (sharing_script disableSharing name) out None].
Proof.
  intros Hres Hsame HresD HA HD.
  rewrite Add_unfold, Hres in HA. rewrite Del_unfold, Hsame, HresD in HD.
  pose proof (applySharingConfig_spec enablePrivateSharing name s) as Ha.
  pose proof (filter_apply_of_sharing enablePrivateSharing disableSharing name s)
    as Hfa.
  destruct (applySharingConfig enablePrivateSharing name s) as [[[e|] sa] ta];
    [done|]. destruct Ha as (Hsvca & _). injection HA as <- <-.
  pose proof (applySharingConfig_unfold disableSharing name
                (State (ICS (<[name:=rule]> (ifaces (svc sa)))
                            (remoteAccessStatus (svc sa))) (os sa))) as Hd.
  pose proof (filter_apply_of_sharing disableSharing disableSharing name
                (State (ICS (<[name:=rule]> (ifaces (svc sa)))
                            (remoteAccessStatus (svc sa))) (os sa))) as Hfd.
  destruct (applySharingConfig disableSharing name _) as [[[e|] sd] td];
    [done|]. injection HD as <- <-. simpl in *.
  assert (Hsd : svc sd = ICS (<[name:=rule]> (ifaces (svc sa)))
                             (remoteAccessStatus (svc sa)) ∧
                ∃ out, td = [EvPowerShell (sharing_script disableSharing name) out None;
                             EvApplySharingConfig disableSharing name None]).
  { destruct (String.length name =? 0)%nat; [done|].
    destruct (shell _ _) as [w [out err]]. simplify_eq. eauto. }
  destruct Hsd as (Hsd & out & ->). rewrite Hsd, Hsvca. simpl.
  assert (Hdel : delete name (<[name:=rule]> (ifaces (svc s)))
                 = delete name (ifaces (svc s))) by apply delete_insert_eq.
  rewrite Hdel. split_and!; try done.
  - apply lookup_delete_eq.
  - intros Hdom. apply map_eq. intros k. rewrite lookup_empty.
    destruct (decide (k = name)) as [->|Hne]; [apply lookup_delete_eq|].
    rewrite lookup_delete_ne by done. apply not_elem_of_dom. set_solver.
  - rewrite !List.filter_app, Hfa. simpl. done.
  - by exists out.
Qed.

Lemma held_after_app held t1 t2 :
  held_after held (t1 ++ t2) = held_after (held_after held t1) t2.
Proof. revert held. induction t1 as [|[] t1 IH]; intros held; simpl; auto. Qed.

Lemma accesses_app held t1 t2 :
  accesses held (t1 ++ t2) = accesses held t1 ++ accesses (held_after held t1) t2.
Proof.
  revert held. induction t1 as [|[] t1 IH]; intros held; simpl; auto.
  by rewrite IH.
Qed.

Lemma shell_unlocked_app held t1 t2 :
  shell_unlocked held (t1 ++ t2) =
  shell_unlocked held t1 && shell_unlocked (held_after held t1) t2.
Proof.
  revert held. induction t1 as [|[] t1 IH]; intros held; simpl; auto.
  by rewrite IH, andb_assoc.
Qed.

(** [applySharingConfig] touches neither the lock nor the fields, and runs
    its command, if any, with the lock as it found it. *)
Lemma applySharingConfig_lock action ifaceName s held :
  let t := (applySharingConfig action ifaceName s).2 in
  held_after held t = held ∧ accesses held t = [] ∧
  (held = false → shell_unlocked held t = true).
Proof.
  pose proof (applySharingConfig_spec action ifaceName s) as H.
  destruct (applySharingConfig _ _ s) as [[err s'] t].
  destruct H as (_ & pre & -> & [->|[out ->]]); simpl; split_and!; try done.
  by intros ->.
Qed.

Lemma Add_lock host rule s :
  let t := (Add host rule s).2 in
  held_after false t = false ∧
  Forall (λ a, a = (f_ifaces, Write, true)) (accesses false t) ∧
  shell_unlocked false t = true.
Proof.
  rewrite Add_unfold.
  destruct (getInterfaceBySubnet _ _) as [ifaceName [e|]]; [done|].
  pose proof (applySharingConfig_lock enablePrivateSharing ifaceName s false)
    as (Hh & Ha & Hs).
  destruct (applySharingConfig _ _ s) as [[[e|] s1] t1]; simpl in *.
  - rewrite Hh, Ha. split_and!; [done..|by apply Hs].
  - rewrite held_after_app, accesses_app, shell_unlocked_app, Hh, Ha, Hs by done.
    simpl. split_and!; [done| |done]. by repeat constructor.
Qed.

Lemma Del_lock host rule s :
  let t := (Del host rule s).2 in
  held_after false t = false ∧
  Forall (λ a, a = (f_ifaces, Write, true)) (accesses false t) ∧
  shell_unlocked false t = true.
Proof.
  rewrite Del_unfold.
  destruct (getInterfaceBySubnet _ _) as [ifaceName [e|]]; [done|].
  pose proof (applySharingConfig_lock disableSharing ifaceName s false)
    as (Hh & Ha & Hs).
  destruct (applySharingConfig _ _ s) as [[[e|] s1] t1]; simpl in *.
  - rewrite held_after_app, accesses_app, shell_unlocked_app, Hh, Ha, Hs by done.
    by simpl.
  - rewrite held_after_app, accesses_app, shell_unlocked_app, Hh, Ha, Hs by done.
    simpl. split_and!; [done| |done]. by repeat constructor.
Qed.

Lemma Disable_range_unlocked host order :
  ∀ resErr s, held_after false (Disable_range host order resErr s).2 = false.
Proof.
  induction order as [|iface order IH]; intros resErr s; [done|].
  rewrite Disable_range_cons, Disable_visit_unfold.
  destruct (ifaces (svc s) !! iface) as [rule|].
  - pose proof (Del_lock host rule s) as (Hh & _).
    destruct (Del host rule s) as [[[e|] s1] tD]; simpl in Hh.
    + specialize (IH (keep_first resErr (Some e)) s1).
      destruct (Disable_range _ _ _ s1) as [[r s2] t2]. simpl in *.
      by rewrite !held_after_app, Hh.
    + specialize (IH resErr s1).
      destruct (Disable_range _ _ _ s1) as [[r s2] t2]. simpl in *.
      by rewrite !held_after_app, Hh.
  - specialize (IH resErr s).
    by destruct (Disable_range _ _ _ s) as [[r s2] t2].
Qed.

Lemma Enable_accesses host s :
  Forall (λ a, a = (f_remoteAccessStatus, Write, false))
    (accesses false (Enable host s).2).
Proof.
  unfold Enable, enableRemoteAccessService, powerShell,
    store_remoteAccessStatus. prog_unfold.
  destruct (shell (os s) _) as [w1 [status [e|]]]; simpl; [done|].
  destruct (shell w1 _) as [w2 [out2 [e|]]]; simpl; [by repeat constructor|].
  destruct (shell w2 _) as [w3 [out3 [e|]]]; simpl; [by repeat constructor|].
  pose proof (getPublicInterfaceName_spec host
                (State (ICS (ifaces (svc s)) status) w3)) as H.
  destruct (getPublicInterfaceName _ _) as [[[name [e|]] s3] t3];
    destruct H as (_ & out & perr & ->); simpl; [by repeat constructor|].
  pose proof (applySharingConfig_lock enablePublicSharing name s3 false)
    as (_ & Ha & _).
  destruct (applySharingConfig _ _ s3) as [[err s4] t4]. simpl in *.
  rewrite app_nil_r, Ha. by repeat constructor.
Qed.

(** C5, as the code has it.  [Add] and [Del] touch the fields only to update
    the map, and do so holding the service's lock; the lock is taken after
    the PowerShell command has returned and released before the method
    returns.  The saved startup mode is written by [Enable] and read by
    [Disable] without the lock. *)
Theorem Add_Del_update_map_under_lock host rule order s :
  let tA := (Add host rule s).2 in
  let tD := (Del host rule s).2 in
  (Forall (λ a, a = (f_ifaces, Write, true)) (accesses false tA) ∧
   guarded tA = true ∧ shell_unlocked false tA = true ∧
   held_after false tA = false) ∧
  (Forall (λ a, a = (f_ifaces, Write, true)) (accesses false tD) ∧
   guarded tD = true ∧ shell_unlocked false tD = true ∧
   held_after false tD = false) ∧
  Forall (λ a, a = (f_remoteAccessStatus, Write, false))
    (accesses false (Enable host s).2) ∧
  (f_remoteAccessStatus, Read, false) ∈ accesses false (Disable host order s).2.
Proof.
  assert (Hg : ∀ t, Forall (λ a, a = (f_ifaces, Write, true)) (accesses false t) →
               guarded t = true).
  { intros t Ht. unfold guarded. apply forallb_forall. intros a Ha.
    rewrite Forall_forall in Ht. apply list_elem_of_In in Ha. by rewrite (Ht a Ha). }
  pose proof (Add_lock host rule s) as (HhA & HaA & HsA).
  pose proof (Del_lock host rule s) as (HhD & HaD & HsD).
  cbv zeta. split_and!; auto using Enable_accesses.
  rewrite Disable_unfold.
  pose proof (Disable_range_unlocked host order None s) as Hu.
  destruct (Disable_range host order None s) as [[r1 s1] t1].
  destruct (shell _ _) as [w2 [out2 err2]].
  destruct (getPublicInterfaceName _ _) as [[[name err3] s3] t3].
  destruct (applySharingConfig _ _ s3) as [[err4 s4] t4]. simpl in *.
  rewrite accesses_app, Hu. simpl. apply elem_of_app. right. left.
Qed.

End service.
End ServiceICSFacts.

(** * Runs on the concrete collaborators *)

Module Scenarios.
Import Testbed.

(** ** Package mapping *)

Section mapping.
Import Mapping.

(** The timed lease outlives the refresh interval. *)
Example lease_outlives_refresh : mapUpdateInterval < mapTimeout.
Proof. reflexivity. Qed.

(** A gateway that rejects the timed lease and grants the permanent one:
    [addMapping] returns nil after two calls, and the iteration sends the
    success event. *)
Example permanent_lease_fallback :
  (addMapping "UDP" 4050 4050 "mysterium" (State 0%nat tt)).1.1 = None ∧
  add_calls (addMapping "UDP" 4050 4050 "mysterium" (State 0%nat tt)).2
  = [(1200000000000, Some "OnlyPermanentLeasesSupported"); (0, None)] ∧
  List.filter is_notify (iteration "UDP" 4050 4050 "mysterium" (State 0%nat tt)).2
  = [EvSuccessEvent None].
Proof. vm_compute. done. Qed.

(** With no gateway in reach the loop is still running after every
    iteration it is given, and has deleted nothing. *)
Example failures_do_not_stop_the_loop :
  (mapPort 5 never_quit "UDP" 4050 4050 "mysterium" (State Unreachable tt)).1.1
  = StillRunning ∧
  count is_notify
    (mapPort 5 never_quit "UDP" 4050 4050 "mysterium" (State Unreachable tt)).2
  = 5%nat ∧
  count is_delete
    (mapPort 5 never_quit "UDP" 4050 4050 "mysterium" (State Unreachable tt)).2
  = 0%nat.
Proof. vm_compute. done. Qed.

(** C4, against the claim: the function [PortMapping] returned is called
    twice; the first call returns and the second panics. *)
Lemma cancel_twice_panics :
  call (PortMapping "UDP" 4050 "mysterium" tt idle).1
       (PortMapping "UDP" 4050 "mysterium" tt idle).2
  = Returns (Runtime [Closed] [Go_mapPort 0 "UDP" 4050 4050 "mysterium" tt]) ∧
  call (PortMapping "UDP" 4050 "mysterium" tt idle).1
       (Runtime [Closed] [Go_mapPort 0 "UDP" 4050 4050 "mysterium" tt])
  = Panics "close of closed channel".
Proof. split; reflexivity. Qed.

(** With no gateway in reach and the quit case taken at the third [select],
    the run makes three attempts, returns, and has called [DeleteMapping]
    once; the failed deletion is logged. *)
Example cancel_after_failures :
  (mapPort 9 (quit_at 2) "UDP" 4050 4050 "mysterium" (State Unreachable tt)).1.1
  = Returned ∧
  count is_notify
    (mapPort 9 (quit_at 2) "UDP" 4050 4050 "mysterium" (State Unreachable tt)).2
  = 3%nat ∧
  List.filter is_delete
    (mapPort 9 (quit_at 2) "UDP" 4050 4050 "mysterium" (State Unreachable tt)).2
  = [EvDeleteMapping "UDP" 4050 4050 (Some "no NAT gateway found")] ∧
  last (mapPort 9 (quit_at 2) "UDP" 4050 4050 "mysterium" (State Unreachable tt)).2
  = Some (EvLog LDebug
            "[port mapping] Couldn't delete port mapping: no NAT gateway found").
Proof. vm_compute. done. Qed.

End mapping.

(** ** The connection sharing service *)

Section sharing.
Import ServiceICS ServiceICSFacts.

(** The two rules were recorded by [Add] under the interfaces they resolved
    to at the time. *)
Example two_rules_recorded :
  map_to_list (ifaces (svc two_rules))
  = [("tun1", "10.8.0.0/16"); ("tun0", "10.0.0.0/8")].
Proof. vm_compute. reflexivity. Qed.


(** C5, against the claim: [Disable] reads the map and the saved startup
    mode, and [Enable] writes the saved startup mode, without holding the
    lock. *)
Lemma Disable_and_Enable_access_without_lock :
  accesses false (Disable host_tunnel_gone ["tun0"; "tun1"] two_rules).2
  = [(f_ifaces, Read, false); (f_ifaces, Write, true); (f_ifaces, Read, false);
     (f_remoteAccessStatus, Read, false)] ∧
  guarded (Disable host_tunnel_gone ["tun0"; "tun1"] two_rules).2 = false ∧
  accesses false (Enable three_tunnels fresh).2
  = [(f_remoteAccessStatus, Write, false)] ∧
  guarded (Enable three_tunnels fresh).2 = false.
Proof. vm_compute. done. Qed.



(** What that run does: three [Del] calls, the second failing, and that
    failure returned. *)
Example Disable_with_one_failure :
  del_records (Disable three_tunnels ["tun2"; "tun0"; "tun1"] tun0_denied).2
  = [("10.10.0.0/24", None);
     ("10.8.0.0/24",
      Some "failed to disable internet connection sharing for internal interface: Access is denied.: exit status 1");
     ("10.9.0.0/24", None)] ∧
  (Disable three_tunnels ["tun2"; "tun0"; "tun1"] tun0_denied).1.1
  = Some "failed to disable internet connection sharing for internal interface: Access is denied.: exit status 1".
Proof. vm_compute. done. Qed.

(** C9, against the claim: tun0 is shared for 10.0.0.0/8 while it is the
    only tunnel; by the time [Del] is called tun0 has gone and the subnet
    resolves to tun1.  [Add] and [Del] both return nil, the disable action is
    applied once, to tun1, and tun0 is still recorded. *)
Lemma Add_then_Del_leaves_entry_after_host_change :
  getInterfaceBySubnet host_one_tunnel "10.0.0.0/8" = ("tun0", None) ∧
  (Add host_one_tunnel "10.0.0.0/8" fresh).1.1 = None ∧
  (Del host_tunnel_gone "10.0.0.0/8"
     (Add host_one_tunnel "10.0.0.0/8" fresh).1.2).1.1 = None ∧
  map_to_list
    (ifaces (svc (Del host_tunnel_gone "10.0.0.0/8"
                    (Add host_one_tunnel "10.0.0.0/8" fresh).1.2).1.2))
  = [("tun0", "10.0.0.0/8")] ∧
  List.filter (is_apply_of disableSharing)
    ((Add host_one_tunnel "10.0.0.0/8" fresh).2
     ++ (Del host_tunnel_gone "10.0.0.0/8"
           (Add host_one_tunnel "10.0.0.0/8" fresh).1.2).2)
  = [EvApplySharingConfig disableSharing "tun1" None].
Proof. vm_compute. done. Qed.

(** C9 on the fresh service: tun0 is shared with one tunnel up and unshared
    after a second tunnel has come up; the subnet resolves to tun0 both
    times. *)
Lemma Add_then_Del_removes_entry_witness :
  getInterfaceBySubnet host_one_tunnel "10.1.0.0/16" = ("tun0", None) ∧
  getInterfaceBySubnet host_two_tunnels "10.1.0.0/16" = ("tun0", None) ∧
  (Add host_one_tunnel "10.1.0.0/16" fresh).1.1 = None ∧
  (Del host_two_tunnels "10.1.0.0/16"
     (Add host_one_tunnel "10.1.0.0/16" fresh).1.2).1.1 = None ∧
  ifaces (svc (Del host_two_tunnels "10.1.0.0/16"
                 (Add host_one_tunnel "10.1.0.0/16" fresh).1.2).1.2) = ∅ ∧
  List.filter (is_apply_of disableSharing)
    ((Add host_one_tunnel "10.1.0.0/16" fresh).2
     ++ (Del host_two_tunnels "10.1.0.0/16"
           (Add host_one_tunnel "10.1.0.0/16" fresh).1.2).2)
  = [EvApplySharingConfig disableSharing "tun0" None].
Proof.
  assert (HresA : getInterfaceBySubnet host_one_tunnel "10.1.0.0/16"
                  = ("tun0", None)) by (vm_compute; reflexivity).
  assert (HresD : getInterfaceBySubnet host_two_tunnels "10.1.0.0/16"
                  = ("tun0", None)) by (vm_compute; reflexivity).
  set (a := Add host_one_tunnel "10.1.0.0/16" fresh).
  set (d := Del host_two_tunnels "10.1.0.0/16" a.1.2).
  assert (Ha : a = (None, a.1.2, a.2)) by (vm_compute; reflexivity).
  assert (Hd : d = (None, d.1.2, d.2)) by (vm_compute; reflexivity).
  destruct (Add_then_Del_removes_entry host_one_tunnel host_two_tunnels
              "10.1.0.0/16" "10.1.0.0/16" "tun0" fresh a.1.2 a.2 d.1.2 d.2
              HresA eq_refl HresD Ha Hd)
    as (_ & _ & _ & Hempty & Honce & _).
  split; [exact HresA|]. split; [exact HresD|].
  split; [by rewrite Ha|]. split; [by rewrite Hd|].
  split; [|exact Honce].
  apply Hempty. vm_compute. set_solver.
Defined.

(** [Add] of a subnet no interface has an address in: the error is
    "interface not found", nothing is run and nothing is recorded. *)
Example Add_no_interface_in_subnet :
  Add three_tunnels "172.16.0.0/12" fresh
  = (Some "failed to find suitable interface: interface not found", fresh, []).
Proof. vm_compute. reflexivity. Qed.

(** [Add] on a machine that denies the sharing script: an error, and the map
    stays empty. *)
Example Add_script_denied :
  (Add three_tunnels "10.9.0.0/24"
     (State (ICS ∅ EmptyString) [sharing_script enablePrivateSharing "tun1"])).1
  = (Some "failed to enable internet connection sharing for internal interface: Access is denied.: exit status 1",
     State (ICS ∅ EmptyString) [sharing_script enablePrivateSharing "tun1"]).
Proof. vm_compute. reflexivity. Qed.

End sharing.
End Scenarios.

(** * More of package mapping *)

Module MappingCoverage.
Import Mapping MappingFacts.

Section mapper.
Context {G M : Type} `{!Interface G} `{!metricsSender M}.
Implicit Types (s : state G M) (t : list event) (quit : nat → bool).

Lemma count_cons p e t :
  count p (e :: t) = ((if p e then 1 else 0) + count p t)%nat.
Proof. unfold count. simpl. by destruct (p e). Qed.

(** What one iteration asks of the gateway: the timed lease once, and at
    most one more call. *)
Lemma iteration_calls protocol extPort intPort name s :
  let t := (iteration protocol extPort intPort name s).2 in
  Forall (gateway_call_of protocol name) t ∧ Forall select_of_loop t ∧
  count is_timed_add t = 1%nat ∧
  (1 ≤ count is_add t ≤ 2)%nat ∧
  count is_timer t = 0%nat.
Proof.
  rewrite iteration_unfold, addMapping_unfold.
  destruct (AddMapping (gateway s) _ _ _ _ mapTimeout) as [g1 [e1|]];
    [destruct (AddMapping g1 _ _ _ _ 0) as [g2 [e2|]]|]; simpl;
    repeat match goal with
           | |- context [SendNATMappingFailEvent ?m ?e] =>
             destruct (SendNATMappingFailEvent m e)
           | |- context [SendNATMappingSuccessEvent ?m] =>
             destruct (SendNATMappingSuccessEvent m)
           end; simpl;
    split_and!;
    try (by repeat constructor; simpl; auto);
    try (unfold count; simpl; lia).
Qed.

Lemma mapPort_loop_calls quit protocol extPort intPort name fuel :
  ∀ i s,
  let t := (mapPort_loop fuel quit i protocol extPort intPort name s).2 in
  Forall (gateway_call_of protocol name) t ∧ Forall select_of_loop t ∧
  count is_timed_add t = count is_select t ∧
  (count is_select t ≤ count is_add t ≤ 2 * count is_select t)%nat ∧
  (count is_timer t + count is_quit t = count is_select t)%nat.
Proof.
  induction fuel as [|fuel IH]; intros i s.
  - simpl. split_and!; by try constructor.
  - rewrite mapPort_loop_unfold.
    pose proof (iteration_calls protocol extPort intPort name s) as Hit.
    pose proof (iteration_counts protocol extPort intPort name s) as Hic.
    destruct (iteration _ _ _ _ s) as [[[] s1] t1]. simpl in Hit, Hic.
    destruct Hit as (Hg & Hsel & Ht & Ha & Htm).
    destruct Hic as (_ & Hs & Hq & _).
    destruct (quit i).
    + simpl. rewrite !Forall_app, !count_app, Hs, Hq, Ht, Htm.
      split_and!; try done; try (repeat constructor; by left).
      all: unfold count in *; simpl; lia.
    + specialize (IH (S i) s1).
      destruct (mapPort_loop _ _ _ _ _ _ _ s1) as [[r s2] t2]. simpl in IH |- *.
      destruct IH as (Hg2 & Hsel2 & Ht2 & Ha2 & Htm2).
      rewrite !Forall_app, !Forall_cons, !count_app, !count_cons, Hs, Hq, Ht, Htm.
      simpl. split_and!; try done; try (by right); lia.
Qed.

(** X1.  A run of [mapPort] waits the same 15 minutes after every iteration
    that is not cancelled, whether the mapping succeeded or not: every
    [select] takes the quit case or the timer of [mapUpdateInterval], which
    is shorter than the timed lease; a run that returned took the quit case
    once, after as many waits as iterations before it. *)
Theorem mapPort_waits_refresh_interval fuel quit protocol extPort intPort name s :
  let '(r, s', t) := mapPort fuel quit protocol extPort intPort name s in
  Forall select_of_loop t ∧
  mapUpdateInterval = 15 * (60 * 1000000000) ∧
  mapUpdateInterval < mapTimeout ∧
  (count is_timer t + count is_quit t = count is_select t)%nat ∧
  count is_quit t = match r with Returned => 1%nat | StillRunning => 0%nat end.
Proof.
  rewrite mapPort_unfold.
  pose proof (mapPort_loop_calls quit protocol extPort intPort name fuel 0%nat s) as Hc.
  pose proof (mapPort_loop_spec quit protocol extPort intPort name fuel 0%nat s) as Hs.
  destruct (mapPort_loop _ _ _ _ _ _ _ s) as [[[] s1] t1]; simpl in Hc.
  - destruct Hc as (_ & Hsel & _ & _ & Htm).
    destruct Hs as (_ & _ & n & t0 & _ & _ & _ & -> & Hq0 & _).
    destruct (DeleteMapping _ _ _ _) as [g err].
    assert (Hd : Forall select_of_loop (deferred_events protocol extPort intPort err)
                 ∧ count is_timer (deferred_events protocol extPort intPort err) = 0%nat
                 ∧ count is_quit (deferred_events protocol extPort intPort err) = 0%nat
                 ∧ count is_select (deferred_events protocol extPort intPort err) = 0%nat).
    { destruct err; simpl; split_and!; by repeat constructor. }
    destruct Hd as (Hd1 & Hd2 & Hd3 & Hd4).
    rewrite !Forall_app, !count_app, Hd2, Hd3, Hd4, Hq0 in *.
    unfold count in *. simpl in *. split_and!; try done; try tauto; try lia.
  - destruct Hc as (_ & Hsel & _ & _ & Htm).
    destruct Hs as (_ & _ & _ & _ & _ & Hq). by split_and!.
Qed.

(** X2.  Every iteration starts over with the timed lease, also after the
    gateway has refused it before: a run asks for the timed lease once per
    iteration and makes at most one further [AddMapping] call per iteration,
    for the permanent lease; every gateway call carries the protocol and the
    name the run was started with. *)
Theorem mapPort_asks_timed_lease_every_iteration
    fuel quit protocol extPort intPort name s :
  let t := (mapPort fuel quit protocol extPort intPort name s).2 in
  count is_timed_add t = count is_select t ∧
  (count is_select t ≤ count is_add t ≤ 2 * count is_select t)%nat ∧
  Forall (gateway_call_of protocol name) t.
Proof.
  rewrite mapPort_unfold.
  pose proof (mapPort_loop_calls quit protocol extPort intPort name fuel 0%nat s) as Hc.
  destruct (mapPort_loop _ _ _ _ _ _ _ s) as [[[] s1] t1]; simpl in Hc.
  - destruct Hc as (Hg & _ & Ht & Ha & _).
    destruct (DeleteMapping _ _ _ _) as [g err]. simpl.
    assert (Hd : Forall (gateway_call_of protocol name)
                   (deferred_events protocol extPort intPort err)
                 ∧ count is_timed_add (deferred_events protocol extPort intPort err) = 0%nat
                 ∧ count is_add (deferred_events protocol extPort intPort err) = 0%nat
                 ∧ count is_select (deferred_events protocol extPort intPort err) = 0%nat).
    { destruct err; simpl; split_and!; try (by repeat constructor);
        vm_compute; reflexivity. }
    destruct Hd as (Hd1 & Hd2 & Hd3 & Hd4).
    rewrite Forall_app, !count_app, Hd2, Hd3, Hd4. split_and!; try done; lia.
  - destruct Hc as (Hg & _ & Ht & Ha & _). cbv zeta. simpl.
    split_and!; try done; lia.
Qed.

(** [close] on an open channel changes that channel alone. *)
Lemma close_open c (rt : runtime M) :
  chans rt !! c = Some Open →
  close c rt = Returns (Runtime (<[c := Closed]> (chans rt)) (goroutines rt)).
Proof. unfold close. by intros ->. Qed.

(** X3.  Two mappings started one after the other are cancelled
    independently: [PortMapping] makes a channel of its own for each, leaves
    the channels and goroutines it found as they were, and the function
    returned for one mapping closes that mapping's channel only, so the
    other function can still be called, in either order. *)
Theorem PortMapping_handles_are_independent
    protoA portA nameA msA protoB portB nameB msB (rt : runtime M) :
  let '(fA, rt1) := PortMapping protoA portA nameA msA rt in
  let '(fB, rt2) := PortMapping protoB portB nameB msB rt1 in
  ∃ cA cB rtA rtB rtAB rtBA,
    fA = func_close cA ∧ fB = func_close cB ∧ cA ≠ cB ∧
    goroutines rt2 =
      goroutines rt ++ [Go_mapPort cA protoA portA portA nameA msA;
                        Go_mapPort cB protoB portB portB nameB msB] ∧
    (∀ c, (c < length (chans rt))%nat → chans rt2 !! c = chans rt !! c) ∧
    call fA rt2 = Returns rtA ∧
    chans rtA !! cB = Some Open ∧
    (∀ c, c ≠ cA → chans rtA !! c = chans rt2 !! c) ∧
    goroutines rtA = goroutines rt2 ∧
    call fB rtA = Returns rtAB ∧
    call fB rt2 = Returns rtB ∧
    chans rtB !! cA = Some Open ∧
    call fA rtB = Returns rtBA ∧
    chans rtAB = chans rtBA.
Proof.
  unfold PortMapping, make_chan, go. simpl.
  set (l := chans rt). set (cA := length l).
  assert (HlenA : length (l ++ [Open]) = S cA)
    by (rewrite length_app; simpl; lia).
  rewrite HlenA.
  set (l2 := (l ++ [Open]) ++ [Open]).
  assert (HA : l2 !! cA = Some Open).
  { unfold l2. rewrite lookup_app_l by lia.
    by rewrite lookup_app_r, Nat.sub_diag by (unfold cA; lia). }
  assert (HB : l2 !! S cA = Some Open).
  { unfold l2. rewrite lookup_app_r by lia. by rewrite HlenA, Nat.sub_diag. }
  assert (Hlen2 : length l2 = S (S cA))
    by (unfold l2; rewrite length_app, HlenA; simpl; lia).
  assert (HBA : <[cA := Closed]> l2 !! S cA = Some Open)
    by (rewrite list_lookup_insert_ne by lia; exact HB).
  assert (HAB : <[S cA := Closed]> l2 !! cA = Some Open)
    by (rewrite list_lookup_insert_ne by lia; exact HA).
  set (gs := (goroutines rt ++ [Go_mapPort cA protoA portA portA nameA msA])
             ++ [Go_mapPort (S cA) protoB portB portB nameB msB]).
  exists cA, (S cA), (Runtime (<[cA := Closed]> l2) gs),
    (Runtime (<[S cA := Closed]> l2) gs),
    (Runtime (<[S cA := Closed]> (<[cA := Closed]> l2)) gs),
    (Runtime (<[cA := Closed]> (<[S cA := Closed]> l2)) gs).
  unfold call.
  rewrite (close_open cA (Runtime l2 gs)) by exact HA.
  rewrite (close_open (S cA) (Runtime (<[cA := Closed]> l2) gs)) by exact HBA.
  rewrite (close_open (S cA) (Runtime l2 gs)) by exact HB.
  rewrite (close_open cA (Runtime (<[S cA := Closed]> l2) gs)) by exact HAB.
  simpl. split_and!; try done.
  - unfold gs. by rewrite <- app_assoc.
  - intros c Hc. unfold l2, cA in *.
    by rewrite !lookup_app_l by (rewrite ?length_app; lia).
  - intros c Hc. by apply list_lookup_insert_ne.
  - apply list_insert_insert_ne. lia.
Qed.

Lemma mapPort_loop_more_fuel quit protocol extPort intPort name fuel :
  ∀ i s k,
  (mapPort_loop fuel quit i protocol extPort intPort name s).1.1 = Returned →
  mapPort_loop (fuel + k) quit i protocol extPort intPort name s
  = mapPort_loop fuel quit i protocol extPort intPort name s.
Proof.
  induction fuel as [|fuel IH]; intros i s k; [done|].
  change (S fuel + k)%nat with (S (fuel + k)). rewrite !mapPort_loop_unfold.
  destruct (iteration _ _ _ _ s) as [[[] s1] t1].
  destruct (quit i); [done|].
  specialize (IH (S i) s1 k).
  destruct (mapPort_loop fuel _ _ _ _ _ _ s1) as [[r s2] t2]. simpl in *.
  intros ->. by rewrite IH.
Qed.

(** What a run of [mapPort] that has returned did does not depend on the
    bound: given more iterations to run, it returns in the same state after
    the same events. *)
Lemma mapPort_returned_is_final fuel k quit protocol extPort intPort name s :
  (mapPort fuel quit protocol extPort intPort name s).1.1 = Returned →
  mapPort (fuel + k) quit protocol extPort intPort name s
  = mapPort fuel quit protocol extPort intPort name s.
Proof.
  rewrite !mapPort_unfold.
  pose proof (mapPort_loop_more_fuel quit protocol extPort intPort name fuel
                0%nat s k) as H.
  destruct (mapPort_loop fuel _ _ _ _ _ _ s) as [[[] s1] t1]; simpl in *.
  - intros _. by rewrite H.
  - done.
Qed.

(** An iteration starts with the call for the timed lease. *)
Lemma iteration_head protocol extPort intPort name s rest :
  head ((iteration protocol extPort intPort name s).2 ++ rest)
  = Some (EvAddMapping protocol extPort intPort name mapTimeout
            (AddMapping (gateway s) protocol extPort intPort name mapTimeout).2).
Proof.
  rewrite iteration_unfold, addMapping_unfold.
  destruct (AddMapping (gateway s) _ _ _ _ mapTimeout) as [g1 [e1|]].
  - destruct (AddMapping g1 _ _ _ _ 0) as [g2 [e2|]]; simpl.
    + by destruct (SendNATMappingFailEvent _ _).
    + by destruct (SendNATMappingSuccessEvent _).
  - simpl. by destruct (SendNATMappingSuccessEvent _).
Qed.

(** X4.  [mapPort] asks for the mapping before it looks at the quit
    channel.  Every run that gets to run starts with the [AddMapping] call
    for the timed lease and the rest of one iteration; a run cancelled
    before its first [select] has therefore made that iteration in full, and
    only then takes the quit case and deletes the mapping, on the gateway as
    the iteration left it. *)
Theorem mapPort_maps_before_first_select
    fuel quit protocol extPort intPort name s :
  let '(_, s1, t1) := iteration protocol extPort intPort name s in
  let '(g, derr) := DeleteMapping (gateway s1) protocol extPort intPort in
  let run := mapPort (S fuel) quit protocol extPort intPort name s in
  (∃ rest, run.2 = t1 ++ rest) ∧
  head run.2
  = Some (EvAddMapping protocol extPort intPort name mapTimeout
            (AddMapping (gateway s) protocol extPort intPort name mapTimeout).2) ∧
  (quit 0%nat = true →
     run = (Returned, State g (sender s1),
            t1 ++ EvSelect CaseQuit
               :: deferred_events protocol extPort intPort derr)).
Proof.
  rewrite mapPort_unfold, mapPort_loop_unfold.
  pose proof (iteration_head protocol extPort intPort name s) as Hhead.
  destruct (iteration _ _ _ _ s) as [[[] s1] t1]. simpl in Hhead.
  destruct (DeleteMapping (gateway s1) _ _ _) as [g derr] eqn:Hdel. cbv zeta.
  destruct (quit 0%nat).
  - rewrite Hdel. simpl. rewrite <- app_assoc.
    split_and!; [by eexists|apply Hhead|done].
  - destruct (mapPort_loop fuel _ _ _ _ _ _ s1) as [[[] s2] t2].
    + destruct (DeleteMapping (gateway s2) _ _ _) as [g' derr']. simpl.
      rewrite <- app_assoc. split_and!; [by eexists|apply Hhead|done].
    + simpl. split_and!; [by eexists|apply Hhead|done].
Qed.

End mapper.
End MappingCoverage.

(** * More of the connection sharing service *)

Module ServiceICSCoverage.
Import ServiceICS ServiceICSFacts.

Section service.
Context {RuleForwarding IP IPNet W : Type} `{!Platform RuleForwarding IP IPNet W}.
Implicit Types (s : state RuleForwarding W) (t : list (event RuleForwarding))
  (host : Host IP) (rule : RuleForwarding) (m : gmap string RuleForwarding).

Lemma shell_commands_app t1 t2 :
  shell_commands (t1 ++ t2) = shell_commands t1 ++ shell_commands t2.
Proof. apply omap_app. Qed.

Lemma shell_errors_app t1 t2 :
  shell_errors (t1 ++ t2) = shell_errors t1 ++ shell_errors t2.
Proof. apply omap_app. Qed.

Lemma String_length_0 (x : string) : (String.length x =? 0)%nat = true ↔ x = EmptyString.
Proof. destruct x; simpl; split; done. Qed.

(** [applySharingConfig], by what it was given. *)
Lemma applySharingConfig_run action ifaceName s :
  let '(err, s', t) := applySharingConfig action ifaceName s in
  svc s' = svc s ∧ del_records t = [] ∧ public_records t = [] ∧
  (action = EmptyString →
     err = Some "empty action provided" ∧ s' = s ∧ shell_commands t = []) ∧
  (action ≠ EmptyString → ifaceName = EmptyString →
     err = Some "empty interface name provided" ∧ s' = s ∧
     shell_commands t = []) ∧
  (action ≠ EmptyString → ifaceName ≠ EmptyString →
     shell_commands t = [sharing_script action ifaceName] ∧
     shell_errors t = [err] ∧
     (shell (os s) (sharing_script action ifaceName)).2.2 = err ∧
     os s' = (shell (os s) (sharing_script action ifaceName)).1).
Proof.
  rewrite applySharingConfig_unfold.
  destruct (String.length action =? 0)%nat eqn:Ha.
  { apply String_length_0 in Ha as ->. by split_and!. }
  assert (action ≠ EmptyString) by (intros ->; done).
  destruct (String.length ifaceName =? 0)%nat eqn:Hn.
  { apply String_length_0 in Hn as ->. by split_and!. }
  assert (ifaceName ≠ EmptyString) by (intros ->; done).
  destruct (shell _ _) as [w [out err]]. by split_and!.
Qed.

(** X5.  [applySharingConfig] checks its arguments before it runs anything:
    with an empty action, or else an empty interface name, it returns its own
    error, runs no command and leaves the machine as it is; otherwise it
    runs one command, the script for that action and interface, and returns
    that command's error as it is. *)
Theorem applySharingConfig_checks_before_running action ifaceName s :
  let '(err, s', t) := applySharingConfig action ifaceName s in
  svc s' = svc s ∧
  (action = EmptyString →
     err = Some "empty action provided" ∧ s' = s ∧ shell_commands t = []) ∧
  (action ≠ EmptyString → ifaceName = EmptyString →
     err = Some "empty interface name provided" ∧ s' = s ∧
     shell_commands t = []) ∧
  (action ≠ EmptyString → ifaceName ≠ EmptyString →
     shell_commands t = [sharing_script action ifaceName] ∧
     shell_errors t = [err] ∧
     (shell (os s) (sharing_script action ifaceName)).2.2 = err ∧
     os s' = (shell (os s) (sharing_script action ifaceName)).1).
Proof.
  pose proof (applySharingConfig_run action ifaceName s) as H.
  destruct (applySharingConfig _ _ s) as [[err s'] t].
  destruct H as (? & _ & _ & ? & ? & ?). by split_and!.
Qed.

(** X6.  [Del] is all or nothing on the map, and does not look at the map
    before it acts: it returns an error exactly when the interface cannot be
    resolved or the disable action fails, and then the map is as it was; when
    both steps succeed the entry of the resolved interface is deleted, and
    if that interface was not recorded the map is as it was and no error is
    returned.  Whenever the rule resolves to a named interface the disable
    script is run on it, recorded or not. *)
Theorem Del_all_or_nothing host rule s :
  let '(res, s', t) := Del host rule s in
  let '(ifaceName, rerr) := getInterfaceBySubnet host (SourceAddress rule) in
  let aerr := (applySharingConfig disableSharing ifaceName s).1.1 in
  (is_Some res ↔ is_Some rerr ∨ is_Some aerr) ∧
  (is_Some res → ifaces (svc s') = ifaces (svc s)) ∧
  (res = None → ifaces (svc s') = delete ifaceName (ifaces (svc s))) ∧
  (res = None → ifaces (svc s) !! ifaceName = None →
     ifaces (svc s') = ifaces (svc s)) ∧
  (is_Some rerr →
     res = errors_Wrap rerr "failed to find suitable interface" ∧
     shell_commands t = []) ∧
  (rerr = None → is_Some aerr →
     res = errors_Wrap aerr
             "failed to disable internet connection sharing for internal interface") ∧
  (rerr = None → ifaceName ≠ EmptyString →
     shell_commands t = [sharing_script disableSharing ifaceName]) ∧
  remoteAccessStatus (svc s') = remoteAccessStatus (svc s) ∧
  del_records t = [(rule, res)].
Proof.
  rewrite Del_unfold.
  destruct (getInterfaceBySubnet _ _) as [ifaceName [e|]] eqn:Hr.
  - cbv zeta. split_and!; try done.
    split; [by left|by eexists].
  - pose proof (applySharingConfig_run disableSharing ifaceName s) as Ha.
    destruct (applySharingConfig _ _ s) as [[[e|] s1] t1];
      destruct Ha as (Hsvc & Hdel & _ & _ & _ & Hrun); cbv zeta; simpl;
      rewrite ?Hsvc, ?del_records_app, ?shell_commands_app, ?Hdel.
    + split_and!; try done.
      * split; [by right|by eexists].
      * intros _ Hn. destruct Hrun as (Hc & _); [done..|]. by rewrite Hc.
    + split_and!; try done;
        try (by intros [? [=]]); try (by intros _ [? [=]]).
      * split; [by intros [? [=]]|by intros [[? [=]]|[? [=]]]].
      * intros _ Hnone. by apply delete_id.
      * intros _ Hn. destruct Hrun as (Hc & _); [done..|]. by rewrite Hc.
Qed.

Lemma contains_true ipnet addrs :
  contains ipnet addrs = true ↔
  ∃ addr, addr ∈ addrs ∧ Contains ipnet (addr_ip addr) = true.
Proof.
  induction addrs as [|addr addrs IH]; simpl.
  - split; [done|]. by intros (? & ?%elem_of_nil & _).
  - destruct (Contains ipnet (addr_ip addr)) eqn:Hc.
    + split; [|done]. intros _. exists addr. split; [left|done].
    + rewrite IH. split.
      * intros (a & Ha & Hca). exists a. split; [by right|done].
      * intros (a & Ha & Hca). apply elem_of_cons in Ha as [->|Ha]; [congruence|].
        by exists a.
Qed.

Lemma interface_by_subnet_app ipnet (pre l : list (Interface IP)) :
  Forall (passed_over ipnet) pre →
  interface_by_subnet ipnet (pre ++ l) = interface_by_subnet ipnet l.
Proof.
  induction 1 as [|iface pre (addrs & Ha & Hc) _ IH]; simpl; [done|].
  by rewrite Ha, Hc.
Qed.

(** What the loop of [getInterfaceBySubnet] returns tells where it stopped. *)
Lemma interface_by_subnet_inv ipnet (l : list (Interface IP)) :
  let '(name, err) := interface_by_subnet ipnet l in
  (is_Some err → name = EmptyString) ∧
  (err = None →
     ∃ pre iface post addrs,
       l = pre ++ iface :: post ∧ Forall (passed_over ipnet) pre ∧
       Addrs iface = Ok addrs ∧ contains ipnet addrs = true ∧
       name = Name iface).
Proof.
  induction l as [|iface l IH]; simpl; [by split|].
  destruct (Addrs iface) as [addrs|e] eqn:Ha; [|by split].
  destruct (contains ipnet addrs) eqn:Hc.
  - split; [by intros [? [=]]|]. intros _.
    exists [], iface, l, addrs. by split_and!.
  - destruct (interface_by_subnet ipnet l) as [name err].
    destruct IH as [IH1 IH2]. split; [done|]. intros Herr.
    destruct (IH2 Herr) as (pre & i & post & a & -> & Hpre & Hi & Hca & Hn).
    exists (iface :: pre), i, post, a. split_and!; try done.
    constructor; [by exists addrs|done].
Qed.

(** X7.  [getInterfaceBySubnet] returns the first interface, in the order the
    host lists them, one of whose addresses is in the subnet, an address of
    a type other than [IPNet] and [IPAddr] being tested as the nil address.
    A returned name is always that of such an interface, and with an error
    the name is empty.  The search stops at the first interface whose
    addresses cannot be listed, with that error, also when a later interface
    has an address in the subnet; when it passes over every interface the
    error is "interface not found". *)
Theorem getInterfaceBySubnet_first_match host subnet :
  let '(name, err) := getInterfaceBySubnet host subnet in
  (is_Some err → name = EmptyString) ∧
  (err = None →
     ∃ ipnet pre iface post addrs addr,
       ParseCIDR subnet = Ok ipnet ∧ host = Ok (pre ++ iface :: post) ∧
       Forall (passed_over ipnet) pre ∧ Addrs iface = Ok addrs ∧
       addr ∈ addrs ∧ Contains ipnet (addr_ip addr) = true ∧
       name = Name iface) ∧
  (∀ ipnet pre iface post,
     ParseCIDR subnet = Ok ipnet → host = Ok (pre ++ iface :: post) →
     Forall (passed_over ipnet) pre →
     (∀ addrs addr,
        Addrs iface = Ok addrs → addr ∈ addrs →
        Contains ipnet (addr_ip addr) = true →
        name = Name iface ∧ err = None) ∧
     (∀ e, Addrs iface = Err e →
        name = EmptyString ∧
        err = Some ("failed to get list of interface addresses: " +:+ e))) ∧
  (∀ ipnet l,
     ParseCIDR subnet = Ok ipnet → host = Ok l →
     Forall (passed_over ipnet) l →
     name = EmptyString ∧ err = Some "interface not found") ∧
  (∀ e, ParseCIDR subnet = Err e →
     err = Some ("failed to parse subnet from request: " +:+ e)) ∧
  (∀ ipnet e, ParseCIDR subnet = Ok ipnet → host = Err e →
     err = Some ("failed to get a list of network interfaces: " +:+ e)).
Proof.
  unfold getInterfaceBySubnet.
  destruct (ParseCIDR subnet) as [ipnet|e] eqn:Hp.
  2:{ split_and!; try done. by intros e' [= ->]. }
  destruct host as [l|e].
  2:{ split_and!; try done. by intros ? e' _ [= ->]. }
  pose proof (interface_by_subnet_inv ipnet l) as Hinv.
  destruct (interface_by_subnet ipnet l) as [name err] eqn:Hl.
  destruct Hinv as [Herr Hok]. split_and!; try done.
  - intros Hnone.
    destruct (Hok Hnone) as (pre & iface & post & addrs & -> & Hpre & Ha & Hc & ->).
    apply contains_true in Hc as (addr & Hin & Hc).
    by exists ipnet, pre, iface, post, addrs, addr.
  - intros ipnet' pre iface post [= <-] [= ->] Hpre.
    rewrite interface_by_subnet_app in Hl by done. simpl in Hl. split.
    + intros addrs addr Ha Hin Hc. rewrite Ha in Hl.
      assert (contains ipnet addrs = true) as Hct
        by (apply contains_true; eauto).
      rewrite Hct in Hl. by simplify_eq.
    + intros e Ha. rewrite Ha in Hl. by simplify_eq.
  - intros ipnet' l' [= <-] [= <-] Hall.
    rewrite <- (app_nil_r l), interface_by_subnet_app in Hl by done.
    simpl in Hl. by simplify_eq.
Qed.

Lemma public_records_app t1 t2 :
  public_records (t1 ++ t2) = public_records t1 ++ public_records t2.
Proof. apply omap_app. Qed.

Lemma interface_by_index_app ifaceID (pre l : list (Interface IP)) :
  Forall (λ i, Index i ≠ ifaceID) pre →
  interface_by_index ifaceID (pre ++ l) = interface_by_index ifaceID l.
Proof.
  induction 1 as [|iface pre Hne _ IH]; simpl; [done|].
  apply Z.eqb_neq in Hne. by rewrite Hne.
Qed.

(** What the loop of [getPublicInterfaceName] returns tells where it
    stopped. *)
Lemma interface_by_index_inv ifaceID (l : list (Interface IP)) :
  let '(name, err) := interface_by_index ifaceID l in
  (is_Some err → name = EmptyString) ∧
  (err = None →
     ∃ pre iface post,
       l = pre ++ iface :: post ∧ Forall (λ i, Index i ≠ ifaceID) pre ∧
       Index iface = ifaceID ∧ name = Name iface).
Proof.
  induction l as [|iface l IH]; simpl; [by split|].
  destruct (Index iface =? ifaceID) eqn:Hi.
  - apply Z.eqb_eq in Hi. split; [by intros [? [=]]|]. intros _.
    by exists [], iface, l.
  - apply Z.eqb_neq in Hi.
    destruct (interface_by_index ifaceID l) as [name err].
    destruct IH as [IH1 IH2]. split; [done|]. intros Herr.
    destruct (IH2 Herr) as (pre & i & post & -> & Hpre & Hidx & Hn).
    exists (iface :: pre), i, post. split_and!; try done. by constructor.
Qed.

(** [getPublicInterfaceName] as a function of the answer to its command. *)
Lemma getPublicInterfaceName_unfold host s :
  getPublicInterfaceName host s =
  let '(w, (out, perr)) := shell (os s) default_route_query in
  let r :=
    match perr with
    | Some _ =>
      (EmptyString, errors_Wrap perr "failed to get interface from the default route")
    | None =>
      match Atoi (TrimSpace out) with
      | Err e => (EmptyString, errors_Wrap (Some e) "failed to parse interface ID")
      | Ok ifaceID =>
        match host with
        | Err e =>
          (EmptyString,
           errors_Wrap (Some e) "failed to get a list of network interfaces")
        | Ok l => interface_by_index ifaceID l
        end
      end
    end in
  (r, State (svc s) w,
   [EvPowerShell default_route_query out perr; EvGetPublicInterfaceName r.1 r.2]).
Proof.
  unfold getPublicInterfaceName, powerShell. prog_unfold.
  destruct (shell _ _) as [w [out [e|]]]; simpl; [done|].
  destruct (Atoi _) as [ifaceID|e]; simpl; [|done].
  destruct host as [l|e]; simpl; [|done].
  by destruct (interface_by_index ifaceID l) as [name err].
Qed.

(** X8.  [getPublicInterfaceName] runs one command, the query for the
    default route, and leaves the service's fields alone.  It parses the
    output with the surrounding white space removed as an interface index and
    returns the name of the first interface of the host with that index; a
    returned name is always that of such an interface.  Each way of failing
    has its own error, and with an error the name is empty. *)
Theorem getPublicInterfaceName_first_index host s :
  let '((name, err), s', t) := getPublicInterfaceName host s in
  let '(w, (out, perr)) := shell (os s) default_route_query in
  s' = State (svc s) w ∧
  shell_commands t = [default_route_query] ∧
  public_records t = [(name, err)] ∧
  (is_Some err → name = EmptyString) ∧
  (is_Some perr →
     err = errors_Wrap perr "failed to get interface from the default route") ∧
  (perr = None → ∀ e, Atoi (TrimSpace out) = Err e →
     err = Some ("failed to parse interface ID: " +:+ e)) ∧
  (perr = None → ∀ ifaceID, Atoi (TrimSpace out) = Ok ifaceID →
     (∀ e, host = Err e →
        err = Some ("failed to get a list of network interfaces: " +:+ e)) ∧
     (∀ l, host = Ok l → Forall (λ i, Index i ≠ ifaceID) l →
        err = Some "interface not found") ∧
     (∀ pre iface post,
        host = Ok (pre ++ iface :: post) →
        Forall (λ i, Index i ≠ ifaceID) pre → Index iface = ifaceID →
        name = Name iface ∧ err = None)) ∧
  (err = None →
     perr = None ∧
     ∃ ifaceID pre iface post,
       Atoi (TrimSpace out) = Ok ifaceID ∧ host = Ok (pre ++ iface :: post) ∧
       Forall (λ i, Index i ≠ ifaceID) pre ∧ Index iface = ifaceID ∧
       name = Name iface).
Proof.
  rewrite getPublicInterfaceName_unfold.
  destruct (shell _ _) as [w [out [e|]]]; cbv zeta.
  { simpl. split_and!; try done; try (by intros [? [=]]). }
  destruct (Atoi _) as [ifaceID|e] eqn:Hatoi.
  2:{ simpl. split_and!; try done; try (by intros [? [=]]).
      by intros _ e' [= ->]. }
  destruct host as [l|e].
  2:{ simpl. split_and!; try done; try (by intros [? [=]]).
      intros _ ? [= <-]. split_and!; try done. by intros e' [= ->]. }
  pose proof (interface_by_index_inv ifaceID l) as Hinv.
  destruct (interface_by_index ifaceID l) as [name err] eqn:Hl.
  destruct Hinv as [Herr Hok]. simpl. split_and!; try done.
  - intros _ ? [= <-]. split_and!; try done.
    + intros l' [= <-] Hall.
      rewrite <- (app_nil_r l), interface_by_index_app in Hl by done.
      simpl in Hl. by simplify_eq.
    + intros pre iface post [= ->] Hpre Hidx.
      rewrite interface_by_index_app in Hl by done. simpl in Hl.
      apply Z.eqb_eq in Hidx. rewrite Hidx in Hl. by simplify_eq.
  - intros Hnone. split; [done|].
    destruct (Hok Hnone) as (pre & iface & post & -> & Hpre & Hidx & ->).
    by exists ifaceID, pre, iface, post.
Qed.

(** What later steps need of a call of [getPublicInterfaceName]. *)
Lemma getPublicInterfaceName_run host s :
  let '((name, err), s', t) := getPublicInterfaceName host s in
  let '(w, (out, perr)) := shell (os s) default_route_query in
  s' = State (svc s) w ∧
  t = [EvPowerShell default_route_query out perr;
       EvGetPublicInterfaceName name err] ∧
  (is_Some err → name = EmptyString) ∧
  (is_Some perr →
     err = errors_Wrap perr "failed to get interface from the default route").
Proof.
  rewrite getPublicInterfaceName_unfold.
  destruct (shell _ _) as [w [out [e|]]]; cbv zeta; [by split_and!|].
  destruct (Atoi _) as [ifaceID|e];
    [|by split_and!; try done; intros [? [=]]].
  destruct host as [l|e]; [|by split_and!; try done; intros [? [=]]].
  pose proof (interface_by_index_inv ifaceID l) as Hinv.
  destruct (interface_by_index ifaceID l) as [name err].
  destruct Hinv as [Herr _]. simpl. split_and!; try done;
    try (by intros [? [=]]).
Qed.

(** [Enable] as the sequence of its steps: each runs only if the ones before
    it returned no error. *)
Lemma Enable_unfold host s :
  Enable host s =
  let '(w1, (status, err1)) := shell (os s) startup_type_query in
  match err1 with
  | Some _ =>
    (errors_Wrap
       (errors_Wrap err1 "failed to get RemoteAccess service startup type")
       "failed to Enable RemoteAccess service",
     State (svc s) w1, [EvPowerShell startup_type_query status err1])
  | None =>
    let saved := ICS (ifaces (svc s)) status in
    let '(w2, (out2, err2)) := shell w1 set_automatic in
    let t2 := [EvPowerShell startup_type_query status None;
               EvAccess f_remoteAccessStatus Write;
               EvPowerShell set_automatic out2 err2] in
    match err2 with
    | Some _ =>
      (errors_Wrap
         (errors_Wrap err2
            "failed to set RemoteAccess service startup type to automatic")
         "failed to Enable RemoteAccess service",
       State saved w2, t2)
    | None =>
      let '(w3, (out3, err3)) := shell w2 start_service in
      let t3 := t2 ++ [EvPowerShell start_service out3 err3] in
      match err3 with
      | Some _ =>
        (errors_Wrap
           (errors_Wrap err3 "failed to start RemoteAccess service")
           "failed to Enable RemoteAccess service",
         State saved w3, t3)
      | None =>
        let '((name, perr), s4, t4) :=
          getPublicInterfaceName host (State saved w3) in
        match perr with
        | Some _ =>
          (errors_Wrap perr "failed to get public interface name", s4, t3 ++ t4)
        | None =>
          let '(aerr, s5, t5) :=
            applySharingConfig enablePublicSharing name s4 in
          (errors_Wrap aerr "failed to enable internet connection sharing",
           s5, t3 ++ t4 ++ t5)
        end
      end
    end
  end.
Proof.
  unfold Enable, enableRemoteAccessService, powerShell,
    store_remoteAccessStatus, startup_type_query, set_automatic, start_service.
  prog_unfold.
  destruct (shell (os s) _) as [w1 [status [e|]]]; simpl; [done|].
  destruct (shell w1 _) as [w2 [out2 [e|]]]; simpl; [done|].
  destruct (shell w2 _) as [w3 [out3 [e|]]]; simpl; [done|].
  destruct (getPublicInterfaceName _ _) as [[[name [e|]] s4] t4]; simpl;
    [by rewrite app_nil_r|].
  destruct (applySharingConfig _ _ s4) as [[aerr s5] t5]. simpl.
  by rewrite app_nil_r.
Qed.

(** X9.  [Enable] stops at the first step that fails.  The commands it runs
    are, in this order and as far as it gets, the query of the startup type,
    the change to automatic start, the start of the service, the query of
    the default route and the script that shares the public interface; a
    command that fails is the last one run; and [Enable] returns [nil]
    exactly when all five have run and none failed.  The map of shared
    interfaces is never touched.  The saved startup type is the output of the
    first command as soon as that command succeeds, whatever happens after
    it, and is left as it was if that command fails. *)
Theorem Enable_stops_at_first_failure host s :
  let '(res, s', t) := Enable host s in
  ifaces (svc s') = ifaces (svc s) ∧
  (∃ name,
     shell_commands t `prefix_of`
       [startup_type_query; set_automatic; start_service;
        default_route_query; sharing_script enablePublicSharing name]) ∧
  (∀ i e, shell_errors t !! i = Some (Some e) →
          S i = length (shell_errors t)) ∧
  (res = None ↔
     length (shell_commands t) = 5%nat ∧
     Forall (λ e, e = None) (shell_errors t)) ∧
  (let '(_, (status, err1)) := shell (os s) startup_type_query in
   remoteAccessStatus (svc s') =
   match err1 with
   | None => status
   | Some _ => remoteAccessStatus (svc s)
   end).
Proof.
  rewrite Enable_unfold.
  destruct (shell (os s) _) as [w1 [status [e|]]]; cbv zeta.
  { split_and!; try done.
    - exists EmptyString. by eexists.
    - by intros [|[|?]] ? [=].
    - split; [done|]. by intros [[=] _]. }
  destruct (shell w1 _) as [w2 [out2 [e|]]].
  { split_and!; try done.
    - exists EmptyString. by eexists.
    - by intros [|[|[|?]]] ? [=].
    - split; [done|]. by intros [[=] _]. }
  destruct (shell w2 _) as [w3 [out3 [e|]]].
  { split_and!; try done.
    - exists EmptyString. by eexists.
    - by intros [|[|[|[|?]]]] ? [=].
    - split; [done|]. by intros [[=] _]. }
  pose proof (getPublicInterfaceName_run host
                (State (ICS (ifaces (svc s)) status) w3)) as Hp.
  destruct (getPublicInterfaceName _ _) as [[[name perr] s4] t4].
  simpl in Hp. destruct (shell w3 _) as [w4 [out4 perr4]].
  destruct Hp as (-> & -> & Hname & Hperr).
  destruct perr as [e|].
  { simpl. split_and!; try done.
    - exists EmptyString. by eexists.
    - intros [|[|[|[|[|?]]]]] ? [=]; done.
    - split; [done|]. by intros [[=] _]. }
  assert (perr4 = None) as ->.
  { destruct perr4 as [e|]; [|done]. by specialize (Hperr (mk_is_Some _ _ eq_refl)). }
  pose proof (applySharingConfig_run enablePublicSharing name
                (State (ICS (ifaces (svc s)) status) w4)) as Ha.
  destruct (applySharingConfig _ _ _) as [[aerr s5] t5].
  destruct Ha as (Hsvc & _ & _ & _ & Hempty & Hrun).
  rewrite Hsvc. simpl.
  destruct (decide (name = EmptyString)) as [->|Hne].
  - destruct Hempty as (-> & _ & Hc); [done..|].
    assert (shell_errors t5 = []) as He.
    { clear -Hc. induction t5 as [|[] t5 IH]; simpl in *; auto; done. }
    rewrite He, Hc. split_and!; try done.
    + exists EmptyString. by eexists.
    + intros [|[|[|[|[|?]]]]] ? [=]; done.
    + split; [done|]. by intros [[=] _].
  - destruct Hrun as (Hc & He & _); [done..|]. rewrite Hc, He.
    split_and!; try done.
    + by exists name.
    + intros [|[|[|[|[|[|?]]]]]] ? [=]; done.
    + rewrite errors_Wrap_None. split; [by intros ->; split; repeat constructor|].
      intros [_ Hall]. rewrite !Forall_cons in Hall. tauto.
Qed.

Lemma shell_errors_nil t : shell_commands t = [] → shell_errors t = [].
Proof. induction t as [|[] t IH]; simpl; auto; done. Qed.

(** X10.  The error [Enable] returns names the step that failed.  When a
    command fails, its error comes back behind the text of its step, and for
    the three commands on the remote access service behind the text of
    [enableRemoteAccessService] too; when the four first commands succeed and
    no sharing script is run, the public interface was not found or has an
    empty name, and [Enable] returns an error. *)
Theorem Enable_error_names_failed_step host s e :
  let '(res, _, t) := Enable host s in
  (shell_errors t = [Some e] →
     res = Some ("failed to Enable RemoteAccess service: "
                 +:+ "failed to get RemoteAccess service startup type: " +:+ e)) ∧
  (shell_errors t = [None; Some e] →
     res = Some ("failed to Enable RemoteAccess service: "
                 +:+ "failed to set RemoteAccess service startup type to automatic: "
                 +:+ e)) ∧
  (shell_errors t = [None; None; Some e] →
     res = Some ("failed to Enable RemoteAccess service: "
                 +:+ "failed to start RemoteAccess service: " +:+ e)) ∧
  (shell_errors t = [None; None; None; Some e] →
     res = Some ("failed to get public interface name: "
                 +:+ "failed to get interface from the default route: " +:+ e)) ∧
  (shell_errors t = [None; None; None; None; Some e] →
     res = Some ("failed to enable internet connection sharing: " +:+ e)) ∧
  (shell_errors t = [None; None; None; None] → is_Some res).
Proof.
  rewrite Enable_unfold.
  destruct (shell (os s) _) as [w1 [status [e1|]]]; cbv zeta.
  { split_and!; try done. by intros [= ->]. }
  destruct (shell w1 _) as [w2 [out2 [e2|]]].
  { split_and!; try done. by intros [= ->]. }
  destruct (shell w2 _) as [w3 [out3 [e3|]]].
  { split_and!; try done. by intros [= ->]. }
  pose proof (getPublicInterfaceName_run host
                (State (ICS (ifaces (svc s)) status) w3)) as Hp.
  destruct (getPublicInterfaceName _ _) as [[[name perr] s4] t4].
  simpl in Hp. destruct (shell w3 _) as [w4 [out4 perr4]].
  destruct Hp as (-> & -> & Hname & Hperr).
  destruct perr as [e4|].
  { simpl. split_and!; try done; try (by eexists).
    intros [= ->]. specialize (Hperr (mk_is_Some _ _ eq_refl)).
    by injection Hperr as ->. }
  assert (perr4 = None) as ->.
  { destruct perr4 as [e4|]; [|done].
    by specialize (Hperr (mk_is_Some _ _ eq_refl)). }
  pose proof (applySharingConfig_run enablePublicSharing name
                (State (ICS (ifaces (svc s)) status) w4)) as Ha.
  destruct (applySharingConfig _ _ _) as [[aerr s5] t5].
  destruct Ha as (_ & _ & _ & _ & Hempty & Hrun). simpl.
  destruct (decide (name = EmptyString)) as [->|Hne].
  - destruct Hempty as (-> & _ & Hc); [done..|].
    rewrite (shell_errors_nil _ Hc). split_and!; try done; try (by eexists).
  - destruct Hrun as (_ & He & _); [done..|]. rewrite He.
    split_and!; try done; try (by intros [= ->]).
Qed.

(** One call of [Del], by its outcome. *)
Lemma Del_run host rule s :
  let '(err, s', t) := Del host rule s in
  del_records t = [(rule, err)] ∧ public_records t = [] ∧
  remoteAccessStatus (svc s') = remoteAccessStatus (svc s) ∧
  (is_Some err → ifaces (svc s') = ifaces (svc s)) ∧
  (err = None →
     ∃ name, getInterfaceBySubnet host (SourceAddress rule) = (name, None) ∧
             ifaces (svc s') = delete name (ifaces (svc s))).
Proof.
  rewrite Del_unfold.
  destruct (getInterfaceBySubnet _ _) as [ifaceName [e|]] eqn:Hr.
  { simpl. by split_and!. }
  pose proof (applySharingConfig_run disableSharing ifaceName s) as Ha.
  destruct (applySharingConfig _ _ s) as [[[e|] s1] t1];
    destruct Ha as (Hsvc & Hdel & Hpub & _); cbv zeta; simpl;
    rewrite ?Hsvc, ?del_records_app, ?public_records_app, ?Hdel, ?Hpub.
  - by split_and!.
  - split_and!; try done; try (by intros [? [=]]). intros _. by exists ifaceName.
Qed.

(** The loop of [Disable] on any map, in any order: it only deletes entries,
    and only those a successful [Del] resolved. *)
Lemma Disable_range_frame host order :
  ∀ resErr s,
  let '(res, s', t) := Disable_range host order resErr s in
  remoteAccessStatus (svc s') = remoteAccessStatus (svc s) ∧
  ifaces (svc s') ⊆ ifaces (svc s) ∧
  (∀ k, is_Some (ifaces (svc s) !! k) → ifaces (svc s') !! k = None →
     ∃ rule, (rule, None) ∈ del_records t ∧
             getInterfaceBySubnet host (SourceAddress rule) = (k, None)) ∧
  (length (del_records t) ≤ length order)%nat ∧
  public_records t = [] ∧
  res = first_error (resErr :: (del_records t).*2).
Proof.
  induction order as [|iface order IH]; intros resErr s.
  { simpl. split_and!; try done.
    - by intros k [r Hk] Hn; rewrite Hk in Hn.
    - by destruct resErr. }
  rewrite Disable_range_cons, Disable_visit_unfold.
  destruct (ifaces (svc s) !! iface) as [rule|] eqn:Hrule.
  2:{ specialize (IH resErr s).
      destruct (Disable_range host order resErr s) as [[res s'] t'].
      destruct IH as (Hst & Hsub & Hgone & Hlen & Hpub & Hres).
      simpl. split_and!; try done. lia. }
  pose proof (Del_run host rule s) as HD.
  destruct (Del host rule s) as [[err s1] tD].
  destruct HD as (Hrec & HpubD & Hst & Hfail & Hok).
  assert (Hstep : ∀ resErr1 tail,
    del_records tail = [] → public_records tail = [] →
    first_error [resErr; err] = resErr1 →
    let '(res, s', t) :=
      let '(b, s2, t2) := Disable_range host order resErr1 s1 in
      (b, s2, (EvAccess f_ifaces Read :: tD ++ tail) ++ t2) in
    remoteAccessStatus (svc s') = remoteAccessStatus (svc s) ∧
    ifaces (svc s') ⊆ ifaces (svc s) ∧
    (∀ k, is_Some (ifaces (svc s) !! k) → ifaces (svc s') !! k = None →
       ∃ rule, (rule, None) ∈ del_records t ∧
               getInterfaceBySubnet host (SourceAddress rule) = (k, None)) ∧
    (length (del_records t) ≤ length (iface :: order))%nat ∧
    public_records t = [] ∧
    res = first_error (resErr :: (del_records t).*2)).
  { intros resErr1 tail Htail Hptail Hfirst.
    specialize (IH resErr1 s1).
    destruct (Disable_range host order resErr1 s1) as [[res s'] t'].
    destruct IH as (Hst' & Hsub & Hgone & Hlen & Hpub & Hres).
    change (EvAccess f_ifaces Read :: tD ++ tail)
      with ([EvAccess f_ifaces Read] ++ tD ++ tail).
    rewrite !del_records_app, !public_records_app, Hrec, HpubD, Htail, Hptail,
      Hpub.
    assert (Hsub1 : ifaces (svc s1) ⊆ ifaces (svc s)).
    { destruct err as [e|].
      - by rewrite Hfail.
      - destruct (Hok eq_refl) as (name & _ & ->). apply delete_subseteq. }
    simpl. split_and!; try done.
    - congruence.
    - by etransitivity.
    - intros k Hk Hnone.
      destruct (ifaces (svc s1) !! k) as [r|] eqn:Hk1.
      + destruct (Hgone k) as (rule' & Hin & Hres'); [by eexists|done|].
        exists rule'. split; [by right|done].
      + destruct err as [e|].
        * rewrite Hfail in Hk1 by done. rewrite Hk1 in Hk. by destruct Hk.
        * destruct (Hok eq_refl) as (name & Hname & Hdelete).
          rewrite Hdelete in Hk1. apply lookup_delete_None in Hk1 as [->|Hk1].
          -- exists rule. split; [left|done].
          -- rewrite Hk1 in Hk. by destruct Hk.
    - lia.
    - rewrite Hres, <- Hfirst. by destruct resErr, err. }
  destruct err as [e|].
  - apply (Hstep _ [_]); [done..|]. by destruct resErr.
  - specialize (Hstep resErr [] eq_refl eq_refl). rewrite app_nil_r in Hstep.
    apply Hstep. by destruct resErr.
Qed.

Lemma shell_commands_failure_log err : shell_commands (failure_log err) = [].
Proof. by destruct err. Qed.

Lemma public_records_failure_log err : public_records (failure_log err) = [].
Proof. by destruct err. Qed.

(** X11.  [Disable] only removes.  On any map, with any host and in any
    order of the range: the saved startup type is left as it was; no entry is
    added or changed; an entry that is gone was resolved by a call of [Del]
    that returned [nil]; [Del] is called at most once for each key the range
    reaches; the command that puts back the saved startup type is run, with
    the startup type as it is saved; the public interface is asked for once;
    and the error returned is [nil] only if every call of [Del] returned
    [nil]. *)
Theorem Disable_only_removes host order s :
  let '(res, s', t) := Disable host order s in
  remoteAccessStatus (svc s') = remoteAccessStatus (svc s) ∧
  ifaces (svc s') ⊆ ifaces (svc s) ∧
  (∀ k, is_Some (ifaces (svc s) !! k) → ifaces (svc s') !! k = None →
     ∃ rule, (rule, None) ∈ del_records t ∧
             getInterfaceBySubnet host (SourceAddress rule) = (k, None)) ∧
  (length (del_records t) ≤ length order)%nat ∧
  restore_command (remoteAccessStatus (svc s)) ∈ shell_commands t ∧
  length (public_records t) = 1%nat ∧
  (res = None → Forall (λ r, r.2 = None) (del_records t)).
Proof.
  rewrite Disable_unfold.
  pose proof (Disable_range_frame host order None s) as Hloop.
  destruct (Disable_range host order None s) as [[r1 s1] t1].
  destruct Hloop as (Hst & Hsub & Hgone & Hlen & Hpub & Hres).
  destruct (shell _ _) as [w2 [out2 err2]].
  pose proof (getPublicInterfaceName_run host (State (svc s1) w2)) as Hp.
  destruct (getPublicInterfaceName _ _) as [[[name err3] s3] t3].
  simpl in Hp. destruct (shell w2 _) as [w3 [out3 perr3]].
  destruct Hp as (-> & -> & _).
  pose proof (applySharingConfig_run disableSharing name (State (svc s1) w3))
    as Ha.
  destruct (applySharingConfig _ _ _) as [[err4 s4] t4].
  destruct Ha as (Hsvc & Hdel & Hpub4 & _). cbv beta iota zeta.
  rewrite Hsvc. unfold restore_command.
  rewrite !del_records_app, !public_records_app, !shell_commands_app,
    !del_records_failure_log, !public_records_failure_log, Hdel, Hpub4, Hpub,
    Hst.
  simpl. rewrite !app_nil_r. split_and!; try done.
  - rewrite elem_of_app. right. left.
  - intros Hnone. destruct r1 as [e|]; [done|].
    symmetry in Hres. simpl in Hres.
    apply first_error_None, Forall_fmap in Hres.
    eapply Forall_impl; [exact Hres|]. by intros [? ?].
Qed.

(** X12.  [Disable] asks for the public interface once, and when the
    interface cannot be found it goes on with the empty name it got: it calls
    [applySharingConfig] on the empty name, which fails without running a
    command, so that the run ends with the failed lookup, its log line, the
    failed call and its log line, and [Disable] returns an error. *)
Theorem Disable_without_public_interface host order s :
  let '(res, s', t) := Disable host order s in
  ∃ name err,
    public_records t = [(name, err)] ∧
    (is_Some err →
       name = EmptyString ∧ is_Some res ∧
       ∃ pre,
         t = pre ++
             [EvGetPublicInterfaceName EmptyString err;
              EvLog (natLogPrefix +:+ " failed to get public interface name: "
                     +:+ fmt_v err);
              EvApplySharingConfig disableSharing EmptyString
                (Some "empty interface name provided");
              EvLog (natLogPrefix
                     +:+ " failed to disable internet connection sharing: "
                     +:+ "empty interface name provided")]).
Proof.
  rewrite Disable_unfold.
  pose proof (Disable_range_frame host order None s) as Hloop.
  destruct (Disable_range host order None s) as [[r1 s1] t1].
  destruct Hloop as (_ & _ & _ & _ & Hpub & _).
  destruct (shell _ _) as [w2 [out2 err2]].
  pose proof (getPublicInterfaceName_run host (State (svc s1) w2)) as Hp.
  destruct (getPublicInterfaceName _ _) as [[[name3 err3] s3] t3].
  simpl in Hp. destruct (shell w2 _) as [w3 [out3 perr3]].
  destruct Hp as (-> & -> & Hname & _).
  pose proof (applySharingConfig_run disableSharing name3 (State (svc s1) w3))
    as Ha.
  pose proof (applySharingConfig_unfold disableSharing name3
                (State (svc s1) w3)) as Hu.
  destruct (applySharingConfig _ _ _) as [[err4 s4] t4].
  destruct Ha as (_ & _ & Hpub4 & _). cbv beta iota zeta.
  exists name3, err3.
  rewrite !public_records_app, !public_records_failure_log, Hpub4, Hpub.
  split; [done|]. intros Herr. rewrite (Hname Herr) in *.
  simpl in Hu. injection Hu as -> -> ->.
  destruct Herr as [e ->]. split; [done|]. split.
  { destruct r1, err2; by eexists. }
  exists (t1 ++ [EvAccess f_remoteAccessStatus Read;
                 EvPowerShell ("Set-Service -Name RemoteAccess -StartupType "
                               +:+ remoteAccessStatus (svc s1)) out2 err2]
             ++ failure_log (errors_Wrap err2
                  "failed to revert RemoteAccess service startup type")
             ++ [EvPowerShell default_route_query out3 perr3]).
  by rewrite <- !app_assoc.
Qed.

(** One call of [Add], by its outcome. *)
Lemma Add_run host rule s :
  let '(err, s', t) := Add host rule s in
  remoteAccessStatus (svc s') = remoteAccessStatus (svc s) ∧
  (is_Some err → ifaces (svc s') = ifaces (svc s)) ∧
  (err = None →
     ∃ name, getInterfaceBySubnet host (SourceAddress rule) = (name, None) ∧
             ifaces (svc s') = <[name := rule]> (ifaces (svc s))).
Proof.
  rewrite Add_unfold.
  destruct (getInterfaceBySubnet _ _) as [ifaceName [e|]] eqn:Hr.
  { simpl. by split_and!. }
  pose proof (applySharingConfig_run enablePrivateSharing ifaceName s) as Ha.
  destruct (applySharingConfig _ _ s) as [[[e|] s1] t1];
    destruct Ha as (Hsvc & _); cbv zeta; simpl; rewrite ?Hsvc.
  - by split_and!.
  - split_and!; try done; try (by intros [? [=]]). intros _. by exists ifaceName.
Qed.

(** [Enable] writes the saved startup type and nothing else. *)
Lemma Enable_frame host s : ifaces (svc (Enable host s).1.2) = ifaces (svc s).
Proof.
  rewrite Enable_unfold.
  destruct (shell (os s) _) as [w1 [status [e|]]]; cbv zeta; [done|].
  destruct (shell w1 _) as [w2 [out2 [e|]]]; [done|].
  destruct (shell w2 _) as [w3 [out3 [e|]]]; [done|].
  pose proof (getPublicInterfaceName_run host
                (State (ICS (ifaces (svc s)) status) w3)) as Hp.
  destruct (getPublicInterfaceName _ _) as [[[name perr] s4] t4].
  simpl in Hp. destruct (shell w3 _) as [w4 [out4 perr4]].
  destruct Hp as (-> & _). destruct perr as [e|]; [done|].
  pose proof (applySharingConfig_run enablePublicSharing name
                (State (ICS (ifaces (svc s)) status) w4)) as Ha.
  destruct (applySharingConfig _ _ _) as [[aerr s5] t5].
  destruct Ha as (Hsvc & _). simpl. by rewrite Hsvc.
Qed.

(** After its loop [Disable] leaves the service's fields alone. *)
Lemma Disable_fields host order s :
  svc (Disable host order s).1.2 = svc (Disable_range host order None s).1.2.
Proof.
  rewrite Disable_unfold.
  destruct (Disable_range host order None s) as [[r1 s1] t1].
  destruct (shell _ _) as [w2 [out2 err2]].
  pose proof (getPublicInterfaceName_run host (State (svc s1) w2)) as Hp.
  destruct (getPublicInterfaceName _ _) as [[[name err3] s3] t3].
  simpl in Hp. destruct (shell w2 _) as [w3 [out3 perr3]].
  destruct Hp as (-> & _).
  pose proof (applySharingConfig_run disableSharing name (State (svc s1) w3))
    as Ha.
  destruct (applySharingConfig _ _ _) as [[err4 s4] t4].
  by destruct Ha as (Hsvc & _).
Qed.

Lemma recorded_under_own_name_subseteq host m m' :
  m' ⊆ m → recorded_under_own_name host m → recorded_under_own_name host m'.
Proof.
  intros Hsub Hown k rule Hk. apply Hown.
  by eapply lookup_weaken.
Qed.

(** On a host whose interfaces do not change, every method keeps the map
    such that each rule resolves to the interface it is recorded under. *)
Lemma run_op_recorded_under_own_name host o s :
  recorded_under_own_name host (ifaces (svc s)) →
  recorded_under_own_name host (ifaces (svc (run_op host o s).1.2)).
Proof.
  intros Hown. destruct o as [|rule|rule|order]; simpl.
  - by rewrite Enable_frame.
  - pose proof (Add_run host rule s) as HA.
    destruct (Add host rule s) as [[[e|] s'] t]; destruct HA as (_ & Hf & Hok).
    + simpl. by rewrite Hf.
    + destruct (Hok eq_refl) as (name & Hres & Hm). simpl. rewrite Hm.
      intros k r Hk. apply lookup_insert_Some in Hk as [[<- <-]|[_ Hk]]; auto.
  - pose proof (Del_run host rule s) as HD.
    destruct (Del host rule s) as [[[e|] s'] t];
      destruct HD as (_ & _ & _ & Hf & Hok).
    + simpl. by rewrite Hf.
    + destruct (Hok eq_refl) as (name & _ & Hm). simpl. rewrite Hm.
      eapply recorded_under_own_name_subseteq; [apply delete_subseteq|done].
  - rewrite Disable_fields.
    pose proof (Disable_range_frame host order None s) as HR.
    destruct (Disable_range host order None s) as [[r1 s1] t1].
    destruct HR as (_ & Hsub & _). simpl.
    by eapply recorded_under_own_name_subseteq.
Qed.

Lemma run_ops_recorded_under_own_name host ops :
  ∀ s, recorded_under_own_name host (ifaces (svc s)) →
       recorded_under_own_name host (ifaces (svc (run_ops host ops s))).
Proof.
  induction ops as [|o ops IH]; intros s Hown; [done|].
  simpl. by apply IH, run_op_recorded_under_own_name.
Qed.

(** X13.  On a host whose interfaces do not change, a service that starts
    with an empty map records every rule under the interface the rule
    resolves to, whatever sequence of [Enable], [Add], [Del] and [Disable]
    is called on it and whatever these calls return; in particular two
    recorded rules never resolve to the same interface. *)
Theorem rules_recorded_under_own_interface host ops status w :
  let m := ifaces (svc (run_ops host ops (State (ICS ∅ status) w))) in
  recorded_under_own_name host m ∧
  (∀ k1 k2 rule1 rule2,
     m !! k1 = Some rule1 → m !! k2 = Some rule2 →
     getInterfaceBySubnet host (SourceAddress rule1)
     = getInterfaceBySubnet host (SourceAddress rule2) →
     k1 = k2) ∧
  no_cross_resolution host m.
Proof.
  assert (Hown : recorded_under_own_name host
            (ifaces (svc (run_ops host ops (State (ICS ∅ status) w))))).
  { apply run_ops_recorded_under_own_name. intros k rule Hk.
    simpl in Hk. by rewrite lookup_empty in Hk. }
  cbv zeta. split_and!; [done| |].
  - intros k1 k2 rule1 rule2 H1 H2 Heq.
    rewrite (Hown _ _ H1), (Hown _ _ H2) in Heq. by injection Heq.
  - intros k rule name Hk Hres. left.
    rewrite (Hown _ _ Hk) in Hres. by injection Hres.
Qed.




Lemma failure_log_lock err held :
  held_after held (failure_log err) = held ∧
  accesses held (failure_log err) = [] ∧
  shell_unlocked held (failure_log err) = true.
Proof. by destruct err. Qed.

(** The loop of [Disable]: the map is read without the lock and written,
    inside [Del], with it. *)
Lemma Disable_range_lock host order :
  ∀ resErr s,
  let t := (Disable_range host order resErr s).2 in
  held_after false t = false ∧
  Forall (λ a, a = (f_ifaces, Write, true) ∨ a = (f_ifaces, Read, false))
    (accesses false t) ∧
  shell_unlocked false t = true.
Proof.
  induction order as [|iface order IH]; intros resErr s; [by split_and!|].
  rewrite Disable_range_cons, Disable_visit_unfold.
  destruct (ifaces (svc s) !! iface) as [rule|].
  2:{ specialize (IH resErr s).
      destruct (Disable_range _ _ _ s) as [[r s2] t2]. simpl in *.
      destruct IH as (Hh & Ha & Hs). split_and!; try done.
      constructor; [by right|done]. }
  pose proof (Del_lock host rule s) as (Hh & Ha & Hs).
  assert (Ha' : Forall (λ a, a = (f_ifaces, Write, true) ∨ a = (f_ifaces, Read, false))
                  (accesses false (Del host rule s).2)).
  { eapply Forall_impl; [exact Ha|]. by left. }
  destruct (Del host rule s) as [[[e|] s1] tD]; simpl in Hh, Ha', Hs.
  - specialize (IH (keep_first resErr (Some e)) s1).
    destruct (Disable_range _ _ _ s1) as [[r s2] t2]. simpl in *.
    destruct IH as (Hh2 & Ha2 & Hs2).
    rewrite !held_after_app, !accesses_app, !shell_unlocked_app, !held_after_app,
      Hh, Hs.
    simpl. rewrite Hh2, Hs2. split_and!; try done.
    constructor; [by right|]. rewrite !Forall_app. by split_and!.
  - specialize (IH resErr s1).
    destruct (Disable_range _ _ _ s1) as [[r s2] t2]. simpl in *.
    destruct IH as (Hh2 & Ha2 & Hs2).
    rewrite !held_after_app, !accesses_app, !shell_unlocked_app, Hh, Hs.
    rewrite Hh2, Hs2. split_and!; try done.
    constructor; [by right|]. rewrite !Forall_app. by split_and!.
Qed.

(** X15.  No method of the service runs a PowerShell command while it holds
    the lock, and every method returns with the lock free.  The lock is held
    for the writes to the map and for nothing else: [Disable] reads the map
    and the saved startup type, and [Enable] writes the saved startup type,
    without it. *)
Theorem commands_run_without_the_lock host o s :
  let t := (run_op host o s).2 in
  held_after false t = false ∧
  shell_unlocked false t = true ∧
  Forall (λ a, a.2 = true ↔ a.1 = (f_ifaces, Write)) (accesses false t) ∧
  match o with
  | OpDisable order =>
    ∃ pre, accesses false t = pre ++ [(f_remoteAccessStatus, Read, false)] ∧
           Forall (λ a, a.1.1 = f_ifaces) pre
  | OpEnable =>
    Forall (λ a, a = (f_remoteAccessStatus, Write, false)) (accesses false t)
  | _ => Forall (λ a, a = (f_ifaces, Write, true)) (accesses false t)
  end.
Proof.
  assert (Hw : ∀ l : list (field * access * bool),
            Forall (λ a, a = (f_ifaces, Write, true)) l →
            Forall (λ a, a.2 = true ↔ a.1 = (f_ifaces, Write)) l).
  { intros l Hl. eapply Forall_impl; [exact Hl|]. by intros a ->. }
  destruct o as [|rule|rule|order]; cbv zeta; simpl.
  - pose proof (Enable_accesses host s) as Hacc.
    assert (held_after false (Enable host s).2 = false ∧
            shell_unlocked false (Enable host s).2 = true) as [Hh Hs].
    { rewrite Enable_unfold.
      destruct (shell (os s) _) as [w1 [status [e|]]]; cbv zeta; [done|].
      destruct (shell w1 _) as [w2 [out2 [e|]]]; [done|].
      destruct (shell w2 _) as [w3 [out3 [e|]]]; [done|].
      pose proof (getPublicInterfaceName_run host
                    (State (ICS (ifaces (svc s)) status) w3)) as Hp.
      destruct (getPublicInterfaceName _ _) as [[[name perr] s4] t4].
      simpl in Hp. destruct (shell w3 _) as [w4 [out4 perr4]].
      destruct Hp as (-> & -> & _). destruct perr as [e|]; [done|].
      pose proof (applySharingConfig_lock enablePublicSharing name
                    (State (ICS (ifaces (svc s)) status) w4) false)
        as (Hh & _ & Hs).
      destruct (applySharingConfig _ _ _) as [[aerr s5] t5]. simpl in *.
      by rewrite Hh, Hs. }
    split_and!; try done.
    eapply Forall_impl; [exact Hacc|]. intros a ->. by split.
  - pose proof (Add_lock host rule s) as (Hh & Ha & Hs). by split_and!; auto.
  - pose proof (Del_lock host rule s) as (Hh & Ha & Hs). by split_and!; auto.
  - rewrite Disable_unfold.
    pose proof (Disable_range_lock host order None s) as (Hh & Ha & Hs).
    destruct (Disable_range host order None s) as [[r1 s1] t1].
    destruct (shell _ _) as [w2 [out2 err2]].
    pose proof (getPublicInterfaceName_run host (State (svc s1) w2)) as Hp.
    destruct (getPublicInterfaceName _ _) as [[[name err3] s3] t3].
    simpl in Hp. destruct (shell w2 _) as [w3 [out3 perr3]].
    destruct Hp as (-> & -> & _).
    pose proof (applySharingConfig_lock disableSharing name (State (svc s1) w3)
                  false) as (Hh4 & Ha4 & Hs4).
    destruct (applySharingConfig _ _ _) as [[err4 s4] t4].
    cbv beta iota zeta. simpl in Hh, Ha, Hs, Hh4, Ha4, Hs4.
    assert (Htail : ∀ e tl,
              held_after false tl = false → accesses false tl = [] →
              shell_unlocked false tl = true →
              held_after false (failure_log e ++ tl) = false ∧
              accesses false (failure_log e ++ tl) = [] ∧
              shell_unlocked false (failure_log e ++ tl) = true).
    { intros e tl ???. by destruct e. }
    pose proof (failure_log_lock
                  (errors_Wrap err4 "failed to disable internet connection sharing")
                  false) as (H4a & H4b & H4c).
    assert (H4 : held_after false
                   (t4 ++ failure_log
                      (errors_Wrap err4 "failed to disable internet connection sharing"))
                 = false ∧
                 accesses false
                   (t4 ++ failure_log
                      (errors_Wrap err4 "failed to disable internet connection sharing"))
                 = [] ∧
                 shell_unlocked false
                   (t4 ++ failure_log
                      (errors_Wrap err4 "failed to disable internet connection sharing"))
                 = true).
    { by rewrite held_after_app, accesses_app, shell_unlocked_app, Hh4, Ha4,
        Hs4, H4a, H4b, H4c by done. }
    destruct H4 as (H4h & H4acc & H4s).
    destruct (Htail (errors_Wrap err3 "failed to get public interface name") _
                H4h H4acc H4s) as (H3h & H3acc & H3s).
    set (t3 := failure_log (errors_Wrap err3 _) ++ _) in *.
    assert (H3 : held_after false
                   ([EvPowerShell default_route_query out3 perr3;
                     EvGetPublicInterfaceName name err3] ++ t3) = false ∧
                 accesses false
                   ([EvPowerShell default_route_query out3 perr3;
                     EvGetPublicInterfaceName name err3] ++ t3) = [] ∧
                 shell_unlocked false
                   ([EvPowerShell default_route_query out3 perr3;
                     EvGetPublicInterfaceName name err3] ++ t3) = true).
    { simpl. by rewrite H3h, H3acc, H3s. }
    destruct H3 as (H3h' & H3acc' & H3s').
    destruct (Htail (errors_Wrap err2
                       "failed to revert RemoteAccess service startup type") _
                H3h' H3acc' H3s') as (H2h & H2acc & H2s).
    set (t2 := failure_log (errors_Wrap err2 _) ++ _) in *.
    cbn [snd].
    rewrite held_after_app, accesses_app, shell_unlocked_app, Hh, Hs.
    change ([EvAccess f_remoteAccessStatus Read;
             EvPowerShell ("Set-Service -Name RemoteAccess -StartupType "
                           +:+ remoteAccessStatus (svc s1)) out2 err2] ++ t2)
      with (EvAccess f_remoteAccessStatus Read
            :: EvPowerShell ("Set-Service -Name RemoteAccess -StartupType "
                             +:+ remoteAccessStatus (svc s1)) out2 err2 :: t2).
    simpl. rewrite H2h, H2acc, H2s. split_and!; try done.
    + rewrite Forall_app. split.
      * eapply Forall_impl; [exact Ha|]. by intros a [->| ->].
      * by repeat constructor.
    + exists (accesses false t1). split; [done|].
      eapply Forall_impl; [exact Ha|]. by intros a [->| ->].
Qed.

(** Only [Enable] writes the saved startup type. *)
Lemma run_op_status host o s :
  is_Enable o = false →
  remoteAccessStatus (svc (run_op host o s).1.2) = remoteAccessStatus (svc s).
Proof.
  destruct o as [|rule|rule|order]; intros Ho; [done|..]; simpl.
  - pose proof (Add_run host rule s) as HA.
    destruct (Add host rule s) as [[err s'] t]. by destruct HA as (? & _).
  - pose proof (Del_run host rule s) as HD.
    destruct (Del host rule s) as [[err s'] t]. by destruct HD as (_ & _ & ? & _).
  - rewrite Disable_fields.
    pose proof (Disable_range_frame host order None s) as HR.
    destruct (Disable_range host order None s) as [[r1 s1] t1].
    by destruct HR as (? & _).
Qed.

Lemma run_ops_status host ops :
  ∀ s, Forall (λ o, is_Enable o = false) ops →
       remoteAccessStatus (svc (run_ops host ops s))
       = remoteAccessStatus (svc s).
Proof.
  induction ops as [|o ops IH]; intros s Hops; [done|].
  apply Forall_cons in Hops as [Ho Hops]. simpl.
  by rewrite IH, run_op_status.
Qed.

(** The startup type [Enable] leaves saved. *)
Lemma Enable_status host s :
  remoteAccessStatus (svc (Enable host s).1.2) =
  match (shell (os s) startup_type_query).2.2 with
  | None => (shell (os s) startup_type_query).2.1
  | Some _ => remoteAccessStatus (svc s)
  end.
Proof.
  rewrite Enable_unfold.
  destruct (shell (os s) _) as [w1 [status [e|]]]; cbv zeta; [done|].
  destruct (shell w1 _) as [w2 [out2 [e|]]]; [done|].
  destruct (shell w2 _) as [w3 [out3 [e|]]]; [done|].
  pose proof (getPublicInterfaceName_run host
                (State (ICS (ifaces (svc s)) status) w3)) as Hp.
  destruct (getPublicInterfaceName _ _) as [[[name perr] s4] t4].
  simpl in Hp. destruct (shell w3 _) as [w4 [out4 perr4]].
  destruct Hp as (-> & _). destruct perr as [e|]; [done|].
  pose proof (applySharingConfig_run enablePublicSharing name
                (State (ICS (ifaces (svc s)) status) w4)) as Ha.
  destruct (applySharingConfig _ _ _) as [[aerr s5] t5].
  destruct Ha as (Hsvc & _). simpl. by rewrite Hsvc.
Qed.

(** X16.  [Disable] puts back the startup type [Enable] found.  When the
    query of the startup type succeeds in [Enable], then whatever else
    [Enable] does and returns, and whatever calls of [Add], [Del] and
    [Disable] follow on whatever hosts return, a later [Disable] runs, right
    before it asks for the default route, the command that sets the startup
    type to the output of that query, taken as it came. *)
Theorem Disable_restores_startup_type_found_by_Enable
    host0 host host' ops order s :
  Forall (λ o, is_Enable o = false) ops →
  (shell (os s) startup_type_query).2.2 = None →
  let status := (shell (os s) startup_type_query).2.1 in
  let s2 := run_ops host ops (Enable host0 s).1.2 in
  remoteAccessStatus (svc s2) = status ∧
  ∃ pre post,
    shell_commands (Disable host' order s2).2
    = pre ++ restore_command status :: default_route_query :: post.
Proof.
  intros Hops Hquery. cbv zeta.
  assert (Hst : remoteAccessStatus
                  (svc (run_ops host ops (Enable host0 s).1.2))
                = (shell (os s) startup_type_query).2.1).
  { by rewrite run_ops_status, Enable_status, Hquery. }
  split; [done|]. revert Hst.
  generalize (run_ops host ops (Enable host0 s).1.2).
  generalize ((shell (os s) startup_type_query).2.1).
  intros status s2 Hst. clear Hquery Hops. rewrite Disable_unfold.
  pose proof (Disable_range_frame host' order None s2) as Hloop.
  destruct (Disable_range host' order None s2) as [[r1 s1] t1].
  destruct Hloop as (Hst1 & _).
  destruct (shell _ _) as [w2 [out2 err2]].
  pose proof (getPublicInterfaceName_run host' (State (svc s1) w2)) as Hp.
  destruct (getPublicInterfaceName _ _) as [[[name err3] s3] t3].
  simpl in Hp. destruct (shell w2 _) as [w3 [out3 perr3]].
  destruct Hp as (-> & -> & _).
  destruct (applySharingConfig _ _ _) as [[err4 s4] t4].
  cbn [snd]. unfold restore_command. rewrite Hst1, Hst.
  eexists (shell_commands t1), _.
  rewrite !shell_commands_app. simpl.
  by rewrite !shell_commands_failure_log.
Qed.

(** X17.  The map holds one rule for each interface, the last one added.
    For two rules that resolve to the same interface: a successful [Add] of
    the second puts it in the place of the first, and a successful [Del] of
    the second then leaves no entry for the interface, although [Del] was
    never called with the first rule. *)
Theorem Del_forgets_every_rule_of_the_interface host rule1 rule2 name s :
  getInterfaceBySubnet host (SourceAddress rule1) = (name, None) →
  getInterfaceBySubnet host (SourceAddress rule2) = (name, None) →
  let '(r1, s1, _) := Add host rule1 s in
  let '(r2, s2, _) := Add host rule2 s1 in
  let '(r3, s3, _) := Del host rule2 s2 in
  (r1 = None → ifaces (svc s1) !! name = Some rule1) ∧
  (r2 = None →
     ifaces (svc s2) = <[name := rule2]> (ifaces (svc s)) ∧
     ifaces (svc s2) !! name = Some rule2) ∧
  (r2 = None → r3 = None →
     ifaces (svc s3) = delete name (ifaces (svc s)) ∧
     ifaces (svc s3) !! name = None).
Proof.
  intros H1 H2.
  pose proof (Add_run host rule1 s) as HA1.
  destruct (Add host rule1 s) as [[r1 s1] t1].
  destruct HA1 as (_ & Hf1 & Hok1).
  pose proof (Add_run host rule2 s1) as HA2.
  destruct (Add host rule2 s1) as [[r2 s2] t2].
  destruct HA2 as (_ & _ & Hok2).
  pose proof (Del_run host rule2 s2) as HD.
  destruct (Del host rule2 s2) as [[r3 s3] t3].
  destruct HD as (_ & _ & _ & _ & Hok3).
  assert (Hs2 : r2 = None →
                ifaces (svc s2) = <[name := rule2]> (ifaces (svc s))).
  { intros Hr2. destruct (Hok2 Hr2) as (n & Hn & ->).
    rewrite H2 in Hn. injection Hn as <-.
    destruct r1 as [e|].
    - by rewrite Hf1.
    - destruct (Hok1 eq_refl) as (n & Hn & ->).
      rewrite H1 in Hn. injection Hn as <-. apply insert_insert_eq. }
  split_and!.
  - intros Hr1. destruct (Hok1 Hr1) as (n & Hn & ->).
    rewrite H1 in Hn. injection Hn as <-. apply lookup_insert_eq.
  - intros Hr2. rewrite (Hs2 Hr2). split; [done|apply lookup_insert_eq].
  - intros Hr2 Hr3. destruct (Hok3 Hr3) as (n & Hn & ->).
    rewrite H2 in Hn. injection Hn as <-. rewrite (Hs2 Hr2).
    split; [apply delete_insert_eq|apply lookup_delete_eq].
Qed.

(** X18.  With the package's own [powerShell] as the service's command
    runner, the error of a failed command carries what the command printed:
    when the sharing script of [Add] fails, [Add] returns the text of its
    step, then the combined output of the script, then the error of the
    process, and records nothing; when the script succeeds, [Add] returns
    [nil]. *)
Theorem failed_command_error_carries_its_output
    (run : W → string → W * (string * option error)) host rule name s :
  (∀ w cmd, shell w cmd = powerShell_exec run w cmd) →
  getInterfaceBySubnet host (SourceAddress rule) = (name, None) →
  name ≠ EmptyString →
  let '(w', (out, err)) :=
    run (os s) (sharing_script enablePrivateSharing name) in
  let '(res, s', t) := Add host rule s in
  os s' = w' ∧
  (err = None → res = None ∧ ifaces (svc s') !! name = Some rule) ∧
  (∀ e, err = Some e →
     res = Some ("failed to enable internet connection sharing for internal interface: "
                 +:+ out +:+ ": " +:+ e) ∧
     ifaces (svc s') = ifaces (svc s)).
Proof.
  intros Hshell Hres Hname.
  rewrite Add_unfold, Hres, applySharingConfig_unfold.
  assert ((String.length name =? 0)%nat = false) as ->.
  { destruct (String.length name =? 0)%nat eqn:Hl; [|done].
    by apply String_length_0 in Hl. }
  simpl. rewrite Hshell. unfold powerShell_exec.
  destruct (run _ _) as [w' [out [e|]]]; simpl.
  - split_and!; try done. by intros e' [= ->].
  - split_and!; try done. intros _. split; [done|apply lookup_insert_eq].
Qed.

End service.
End ServiceICSCoverage.

(** * More runs on the concrete collaborators *)

Module CoverageScenarios.
Import Testbed ServiceICS ServiceICSFacts ServiceICSCoverage.



(** What that run leaves. *)
Example Disable_keeps_the_denied_tunnel :
  map_to_list
    (ifaces (svc (Disable three_tunnels ["tun2"; "tun0"; "tun1"]
                    tun0_denied).1.2))
  = [("tun0", "10.8.0.0/24")].
Proof. vm_compute. reflexivity. Qed.

(** X16 on the fresh service: [Enable], one tunnel shared, then [Disable]
    twice; the second [Disable] still puts back "Manual". *)
Lemma Disable_restores_startup_type_found_by_Enable_witness :
  Forall (λ o, is_Enable o = false)
    [OpAdd "10.9.0.0/24"; OpDisable ["tun1"]] ∧
  (shell (os fresh) startup_type_query).2.2 = None ∧
  let status := (shell (os fresh) startup_type_query).2.1 in
  let s2 := run_ops three_tunnels [OpAdd "10.9.0.0/24"; OpDisable ["tun1"]]
              (Enable three_tunnels fresh).1.2 in
  remoteAccessStatus (svc s2) = status ∧
  ∃ pre post,
    shell_commands (Disable three_tunnels [] s2).2
    = pre ++ restore_command status :: default_route_query :: post.
Proof.
  assert (H1 : Forall (λ o : @op string, is_Enable o = false)
                 [OpAdd "10.9.0.0/24"; OpDisable ["tun1"]])
    by (by repeat constructor).
  assert (H2 : (shell (os fresh) startup_type_query).2.2 = None)
    by (vm_compute; reflexivity).
  split; [exact H1|]. split; [exact H2|].
  exact (Disable_restores_startup_type_found_by_Enable three_tunnels
           three_tunnels three_tunnels
           [OpAdd "10.9.0.0/24"; OpDisable ["tun1"]] [] fresh H1 H2).
Defined.

Example Disable_puts_back_manual_start :
  shell_commands
    (Disable three_tunnels []
       (run_ops three_tunnels [OpAdd "10.9.0.0/24"; OpDisable ["tun1"]]
          (Enable three_tunnels fresh).1.2)).2
  = ["Set-Service -Name RemoteAccess -StartupType Manual";
     default_route_query; sharing_script disableSharing "Ethernet"].
Proof. vm_compute. reflexivity. Qed.

(** X17 with one tunnel up: 10.0.0.0/8 and 10.1.0.0/16 both resolve to
    tun0. *)
Lemma Del_forgets_every_rule_of_the_interface_witness :
  getInterfaceBySubnet host_one_tunnel "10.0.0.0/8" = ("tun0", None) ∧
  getInterfaceBySubnet host_one_tunnel "10.1.0.0/16" = ("tun0", None) ∧
  let '(r1, s1, _) := Add host_one_tunnel "10.0.0.0/8" fresh in
  let '(r2, s2, _) := Add host_one_tunnel "10.1.0.0/16" s1 in
  let '(r3, s3, _) := Del host_one_tunnel "10.1.0.0/16" s2 in
  (r1 = None → ifaces (svc s1) !! "tun0" = Some "10.0.0.0/8") ∧
  (r2 = None →
     ifaces (svc s2) = <["tun0" := "10.1.0.0/16"]> (ifaces (svc fresh)) ∧
     ifaces (svc s2) !! "tun0" = Some "10.1.0.0/16") ∧
  (r2 = None → r3 = None →
     ifaces (svc s3) = delete "tun0" (ifaces (svc fresh)) ∧
     ifaces (svc s3) !! "tun0" = None).
Proof.
  assert (H1 : getInterfaceBySubnet host_one_tunnel "10.0.0.0/8" = ("tun0", None))
    by (vm_compute; reflexivity).
  assert (H2 : getInterfaceBySubnet host_one_tunnel "10.1.0.0/16" = ("tun0", None))
    by (vm_compute; reflexivity).
  split; [exact H1|]. split; [exact H2|].
  exact (Del_forgets_every_rule_of_the_interface host_one_tunnel
           "10.0.0.0/8" "10.1.0.0/16" "tun0" fresh H1 H2).
Defined.

Example both_Adds_and_the_Del_succeed :
  (Add host_one_tunnel "10.0.0.0/8" fresh).1.1 = None ∧
  (Add host_one_tunnel "10.1.0.0/16"
     (Add host_one_tunnel "10.0.0.0/8" fresh).1.2).1.1 = None ∧
  (Del host_one_tunnel "10.1.0.0/16"
     (Add host_one_tunnel "10.1.0.0/16"
        (Add host_one_tunnel "10.0.0.0/8" fresh).1.2).1.2).1.1 = None.
Proof. vm_compute. done. Qed.

(** X18 on the machine that denies the script sharing tun1. *)
Lemma failed_command_error_carries_its_output_witness :
  (∀ w cmd, shell w cmd = powerShell_exec scripted_process w cmd) ∧
  getInterfaceBySubnet three_tunnels "10.9.0.0/24" = ("tun1", None) ∧
  "tun1" ≠ EmptyString ∧
  let s := State (ICS ∅ EmptyString)
             [sharing_script enablePrivateSharing "tun1"] in
  let '(w', (out, err)) :=
    scripted_process (os s) (sharing_script enablePrivateSharing "tun1") in
  let '(res, s', t) := Add three_tunnels "10.9.0.0/24" s in
  os s' = w' ∧
  (err = None → res = None ∧ ifaces (svc s') !! "tun1" = Some "10.9.0.0/24") ∧
  (∀ e, err = Some e →
     res = Some ("failed to enable internet connection sharing for internal interface: "
                 +:+ out +:+ ": " +:+ e) ∧
     ifaces (svc s') = ifaces (svc s)).
Proof.
  assert (H1 : ∀ w cmd, shell w cmd = powerShell_exec scripted_process w cmd)
    by reflexivity.
  assert (H2 : getInterfaceBySubnet three_tunnels "10.9.0.0/24" = ("tun1", None))
    by (vm_compute; reflexivity).
  assert (H3 : "tun1" ≠ EmptyString) by discriminate.
  split; [exact H1|]. split; [exact H2|]. split; [exact H3|].
  exact (failed_command_error_carries_its_output scripted_process three_tunnels
           "10.9.0.0/24" "tun1"
           (State (ICS ∅ EmptyString)
              [sharing_script enablePrivateSharing "tun1"]) H1 H2 H3).
Defined.

End CoverageScenarios.
